(** * randlava: camera frames hashed into a stream of Whirlpool digests

    Shallow embedding of [randlava.py].  The script reads frames from
    camera 0 with OpenCV, prints each frame with [numpy.array2string] and
    hashes the text with Whirlpool; [generate_secure_hash] is a Python
    generator that [main] drains with [next].

    The three libraries the script calls are modelled by what they compute:
    - [Whirlpool]: the hash function of ISO/IEC 10118-3 (checked below
      against its published test vectors);
    - [Numpy]: [array2string] on a three-dimensional uint8 array with the
      default print options (threshold 1000, edgeitems 3, linewidth 75) of
      NumPy 1.14 and later;
    - [Cv2]: the capture device as a script of read outcomes, the handle
      as counters of opens and releases, the preview as a log. *)

From Stdlib Require Import Ascii String DecimalString DecimalZ.
From Stdlib Require Import ZArith Arith Bool Lia List.
Import ListNotations.

(** A Python [str] restricted to code points below 256. *)
Definition str := list ascii.

Definition lit (s : string) : str := list_ascii_of_string s.

Definition newline : ascii := ascii_of_nat 10.

(** ** Whirlpool *)

Module Whirlpool.
Open Scope Z_scope.

(** The mini-boxes from which the substitution box is built. *)
Definition E_box : list Z := [1; 11; 9; 12; 13; 6; 15; 3; 14; 8; 7; 4; 10; 2; 5; 0].
Definition Einv_box : list Z := [15; 0; 13; 7; 11; 14; 5; 10; 9; 2; 12; 1; 3; 4; 8; 6].
Definition R_box : list Z := [7; 12; 11; 13; 14; 4; 9; 15; 6; 3; 8; 10; 2; 5; 1; 0].

Definition mini (t : list Z) (x : Z) : Z := nth (Z.to_nat x) t 0.

Definition sbox (x : Z) : Z :=
  let u := mini E_box (Z.shiftr x 4) in
  let l := mini Einv_box (Z.land x 15) in
  let r := mini R_box (Z.lxor u l) in
  Z.lor (Z.shiftl (mini E_box (Z.lxor u r)) 4) (mini Einv_box (Z.lxor l r)).

(** Multiplication by x in GF(2^8) modulo x^8 + x^4 + x^3 + x^2 + 1. *)
Definition xtime (x : Z) : Z :=
  let y := Z.shiftl x 1 in
  if Z.testbit x 7 then Z.lxor (Z.land y 255) 29 else y.

Definition gmul (c x : Z) : Z :=
  match c with
  | 1 => x
  | 2 => xtime x
  | 4 => xtime (xtime x)
  | 5 => Z.lxor (xtime (xtime x)) x
  | 8 => xtime (xtime (xtime x))
  | 9 => Z.lxor (xtime (xtime (xtime x))) x
  | _ => 0
  end.

(** First row of the circulant diffusion matrix. *)
Definition circ_row : list Z := [1; 1; 4; 1; 8; 5; 2; 9].

(** The state is an 8 x 8 byte matrix stored row by row. *)
Definition cell (a : list Z) (i j : nat) : Z := nth (8 * i + j) a 0.

Definition xor_all (l : list Z) : Z := fold_left Z.lxor l 0.

Definition idx8 : list nat := seq 0 8.
Definition idx64 : list nat := seq 0 64.

Definition gamma (a : list Z) : list Z := map sbox a.

Definition pi (a : list Z) : list Z :=
  map (fun p : nat => cell a ((p / 8 + 8 - p mod 8) mod 8)%nat (p mod 8)%nat) idx64.

Definition theta (a : list Z) : list Z :=
  map (fun p : nat =>
         xor_all (map (fun t : nat =>
                         gmul (nth ((p mod 8 + 8 - t) mod 8)%nat circ_row 0)
                              (cell a (p / 8)%nat t)) idx8)) idx64.

Definition sigma (k a : list Z) : list Z :=
  map (fun p => Z.lxor (nth p a 0) (nth p k 0)) idx64.

Definition rho (k a : list Z) : list Z := sigma k (theta (pi (gamma a))).

Definition round_const (r : nat) : list Z :=
  map (fun p => if (p <? 8)%nat then sbox (Z.of_nat (8 * (r - 1) + p)) else 0) idx64.

Definition rounds : list nat := seq 1 10.

(** The block cipher W: ten rounds, the key schedule run alongside. *)
Definition W (key block : list Z) : list Z :=
  snd (fold_left (fun '(k, s) r => let k' := rho (round_const r) k in (k', rho k' s))
                 rounds (key, sigma key block)).

(** Miyaguchi-Preneel compression. *)
Definition compress (h block : list Z) : list Z :=
  sigma block (sigma h (W h block)).

Definition be_bytes (n : nat) (v : Z) : list Z :=
  map (fun i => Z.land (Z.shiftr v (8 * Z.of_nat (n - 1 - i))) 255) (seq 0 n).

(** One bit, zeros up to an odd multiple of 256 bits, the 256-bit length. *)
Definition pad (m : list Z) : list Z :=
  let L := List.length m in
  let z := ((64 + 32 - (L + 1) mod 64) mod 64)%nat in
  m ++ [128] ++ repeat 0 z ++ be_bytes 32 (8 * Z.of_nat L).

Fixpoint blocks (fuel : nat) (m : list Z) : list (list Z) :=
  match fuel with
  | O => []
  | S f => match m with
           | [] => []
           | _ => firstn 64 m :: blocks f (skipn 64 m)
           end
  end.

Definition digest (m : list Z) : list Z :=
  let p := pad m in
  fold_left compress (blocks (List.length p) p) (repeat 0 64%nat).

(** A byte, and a 512-bit block of 64 of them. *)
Definition byte (x : Z) : Prop := 0 <= x < 256.

Definition block (a : list Z) : Prop := List.length a = 64%nat /\ Forall byte a.

Definition hexdigit (d : Z) : ascii :=
  nth (Z.to_nat d) (lit "0123456789abcdef") "0"%char.

Definition hex (bs : list Z) : str :=
  flat_map (fun b => [hexdigit (Z.shiftr b 4); hexdigit (Z.land b 15)]) bs.

Definition hexdigest (m : list Z) : str := hex (digest m).

(** The characters of a lowercase hexadecimal rendering. *)
Definition lower_hex (c : ascii) : Prop := In c (lit "0123456789abcdef").

End Whirlpool.

(** ** Python strings *)

Module Py.

(** [str.encode("utf-8")] on code points below 256. *)
Definition encode_char (c : ascii) : list Z :=
  let n := Z.of_nat (nat_of_ascii c) in
  if (n <? 128)%Z then [n]
  else [Z.lor 192 (Z.shiftr n 6); Z.lor 128 (Z.land n 63)].

Definition encode_utf8 (s : str) : list Z := flat_map encode_char s.

(** The characters [str.isspace] accepts below 256. *)
Definition isspace (c : ascii) : bool :=
  let n := nat_of_ascii c in
  ((9 <=? n) && (n <=? 13)) || ((28 <=? n) && (n <=? 32))
  || (n =? 133) || (n =? 160).

Fixpoint lstrip (s : str) : str :=
  match s with
  | c :: r => if isspace c then lstrip r else s
  | [] => []
  end.

Definition rstrip (s : str) : str := rev (lstrip (rev s)).

(** [str(v)] for an integer. *)
Definition str_of_int (v : Z) : str :=
  lit (NilZero.string_of_int (Z.to_int v)).

(** ['%wd' % x]: right-justified in a field of [w] characters. *)
Definition rjust (w : nat) (s : str) : str :=
  repeat " "%char (w - List.length s) ++ s.

(** [l[start:stop]] for [0 <= start <= stop]; out-of-range bounds are
    clamped to the length, as Python slices do. *)
Definition slice {A : Type} (start stop : nat) (l : list A) : list A :=
  firstn (stop - start) (skipn start l).

End Py.

(** ** NumPy: three-dimensional uint8 arrays and [array2string] *)

Module Numpy.

(** Height x width x channels, row-major. *)
Definition ndarray := list (list (list Z)).

Definition samples (a : ndarray) : list Z := concat (concat a).

Definition size (a : ndarray) : nat := List.length (samples a).

(** Default print options. *)
Definition threshold : nat := 1000.
Definition edgeitems : nat := 3.
Definition linewidth : nat := 75.
Definition summary_insert : str := lit "...".

Definition maximum (l : list Z) : Z := fold_right Z.max (hd 0%Z l) l.
Definition minimum (l : list Z) : Z := fold_right Z.min (hd 0%Z l) l.

(** [IntegerFormat]: every element is printed in the width of the widest
    of the extreme values of [data]. *)
Definition format_width (data : list Z) : nat :=
  match data with
  | [] => 0
  | _ => Nat.max (List.length (Py.str_of_int (maximum data)))
                 (List.length (Py.str_of_int (minimum data)))
  end.

Definition IntegerFormat (data : list Z) (x : Z) : str :=
  Py.rjust (format_width data) (Py.str_of_int x).

(** [_leading_trailing] along one axis. *)
Definition edges {A : Type} (l : list A) : list A :=
  if 2 * edgeitems <? List.length l
  then firstn edgeitems l ++ skipn (List.length l - edgeitems) l
  else l.

Definition leading_trailing (a : ndarray) : ndarray :=
  edges (map (fun plane => edges (map edges plane)) a).

(** The items of one axis that [_formatArray] visits: all of them, or
    the leading and trailing ones around the summary mark ([None]). *)
Definition shown {A : Type} (summary : bool) (items : list A) : list (option A) :=
  if summary && (2 * edgeitems <? List.length items)
  then map Some (firstn edgeitems items) ++ [None]
       ++ map Some (skipn (List.length items - edgeitems) items)
  else map Some items.

(** The text of a visited item. *)
Definition render {A : Type} (f : A -> str) (item : option A) : str :=
  match item with
  | Some x => f x
  | None => summary_insert
  end.

(** [_extendLine] *)
Definition extendLine (s line word : str) (line_width : nat)
    (next_line_prefix : str) : str * str :=
  let needs_wrap :=
    (line_width <? List.length line + List.length word)
    && negb (List.length line <=? List.length next_line_prefix) in
  if needs_wrap
  then (s ++ Py.rstrip line ++ [newline], next_line_prefix ++ word)
  else (s, line ++ word).

(** The loops of the last axis: every word but the last is followed by
    the separator. *)
Fixpoint extend_words (separator : str) (elem_width : nat) (hanging_indent : str)
    (words : list str) (s line : str) : str * str :=
  match words with
  | [] => (s, line)
  | word :: rest =>
      let '(s1, line1) := extendLine s line word elem_width hanging_indent in
      match rest with
      | [] => (s1, line1)
      | _ => extend_words separator elem_width hanging_indent rest s1
               (line1 ++ separator)
      end
  end.

Definition format_last_axis (separator hanging_indent : str) (curr_width : nat)
    (words : list str) : str :=
  let elem_width := curr_width - Nat.max (List.length (Py.rstrip separator)) 1 in
  let '(s, line) :=
    extend_words separator elem_width hanging_indent words [] hanging_indent in
  lit "[" ++ skipn (List.length hanging_indent) (s ++ line) ++ lit "]".

(** The loops of the other axes. *)
Fixpoint join_items (hanging_indent line_sep : str) (items : list str) : str :=
  match items with
  | [] => []
  | nested :: rest =>
      match rest with
      | [] => hanging_indent ++ nested
      | _ => hanging_indent ++ nested ++ line_sep
             ++ join_items hanging_indent line_sep rest
      end
  end.

Definition format_outer_axis (separator hanging_indent : str) (axes_left : nat)
    (items : list str) : str :=
  let line_sep := Py.rstrip separator ++ repeat newline (axes_left - 1) in
  lit "[" ++ skipn (List.length hanging_indent)
                   (join_items hanging_indent line_sep items) ++ lit "]".

(** [_formatArray], the recursion unrolled over the three axes. *)
Definition formatArray (a : ndarray) (format_function : Z -> str)
    (line_width : nat) (next_line_prefix separator : str) (summary : bool) : str :=
  let indent0 := next_line_prefix in
  let indent1 := indent0 ++ lit " " in
  let indent2 := indent1 ++ lit " " in
  format_outer_axis separator indent0 3
    (map (render (fun plane =>
       format_outer_axis separator indent1 2
         (map (render (fun row =>
            format_last_axis separator indent2 (line_width - 2)
              (map (render format_function) (shown summary row))))
            (shown summary plane))))
       (shown summary a)).

Definition array2string (a : ndarray) (separator : str) : str :=
  if size a =? 0 then lit "[]"
  else
    let summary := threshold <? size a in
    let data := if summary then leading_trailing a else a in
    formatArray a (IntegerFormat (samples data)) linewidth (lit " ")
      separator summary.

End Numpy.

(** ** OpenCV: the module namespace, the capture device, the preview *)

Module Cv2.
Import Numpy.

(** The names a module bound to [cv2] defines; an attribute access on any
    other name raises [AttributeError]. *)
Definition namespace := list string.

Definition hasattr (m : namespace) (name : string) : bool :=
  existsb (String.eqb name) m.

(** The part of the OpenCV API the script is concerned with.  The window
    function of OpenCV is [namedWindow]. *)
Definition opencv : namespace :=
  ["namedWindow"; "imshow"; "waitKey"; "destroyWindow"; "destroyAllWindows";
   "VideoCapture"; "imread"; "imwrite"]%string.

(** The camera and the screen.  [script k] is the outcome of the [k]-th
    [read] on the device: a frame, or a failed read. *)
Record World := mkWorld {
  device_present : bool;
  script : nat -> option ndarray;
  reads : nat;
  is_open : bool;
  opened : nat;
  released : nat;
  displayed : list ndarray
}.

(** [cv2.VideoCapture(0)]: the handle is open if the device could be
    acquired. *)
Definition VideoCapture (w : World) : World :=
  if device_present w
  then mkWorld (device_present w) (script w) (reads w) true (S (opened w))
         (released w) (displayed w)
  else mkWorld (device_present w) (script w) (reads w) false (opened w)
         (released w) (displayed w).

Definition isOpened (w : World) : bool := is_open w.

(** [cam.read()]: the pair [(works, frame)] and the device after it. *)
Definition read (w : World) : bool * option ndarray * World :=
  if is_open w
  then
    let w' := mkWorld (device_present w) (script w) (S (reads w)) (is_open w)
                (opened w) (released w) (displayed w) in
    match script w (reads w) with
    | Some frame => (true, Some frame, w')
    | None => (false, None, w')
    end
  else (false, None, w).

(** [cam.release()] *)
Definition release (w : World) : World :=
  mkWorld (device_present w) (script w) (reads w) false (opened w)
    (S (released w)) (displayed w).

(** [cv2.imshow("Cam", frame)], which rejects an image without pixels. *)
Definition imshow (frame : ndarray) (w : World) : option World :=
  if size frame =? 0 then None
  else Some (mkWorld (device_present w) (script w) (reads w) (is_open w)
               (opened w) (released w) (displayed w ++ [frame])).

End Cv2.

(** ** The script *)

Import Numpy.

Inductive exn : Type :=
| AttributeError
| TypeError
| Cv2Error
| SystemExit (code : Z)
| StopIteration.

(** [hash(s)] *)
Definition hash (s : str) : str :=
  Whirlpool.hexdigest (Py.encode_utf8 s).

(** [crop_frame(img)]: [img[100:900, 200:350]] *)
Definition crop_frame (img : ndarray) : ndarray :=
  map (Py.slice 200 350) (Py.slice 100 900 img).

(** [img_to_string(img)] on an array. *)
Definition img_to_string (img : ndarray) : str :=
  array2string img [].

(** What one [next] on the generator gives its caller. *)
Inductive outcome : Type :=
| Yield (res : str)
| Raise (e : exn).

(** The generator object: not started, suspended at the [yield] with its
    locals [works] and [frame], or finished. *)
Inductive generator : Type :=
| Created
| Suspended (works : bool) (frame : option ndarray)
| Finished.

(** From the loop test to the next [yield], or out of the loop.  In the
    body the frame read before is cropped and shown, a new frame is read
    into the same variable, and that new frame is printed and hashed. *)
Definition loop (cv2 : Cv2.namespace) (works : bool) (frame : option ndarray)
    (w : Cv2.World) : outcome * generator * Cv2.World :=
  if works then
    match frame with
    | None =>
        (* crop_frame(None): None cannot be subscripted *)
        (Raise TypeError, Finished, w)
    | Some img =>
        let cropped := crop_frame img in
        if negb (Cv2.hasattr cv2 "imshow") then (Raise AttributeError, Finished, w)
        else
          match Cv2.imshow cropped w with
          | None => (Raise Cv2Error, Finished, w)
          | Some w1 =>
              let '(works', frame', w2) := Cv2.read w1 in
              match frame' with
              | None =>
                  (* img_to_string(None): array2string asks None for its size *)
                  (Raise AttributeError, Finished, w2)
              | Some img' =>
                  (Yield (hash (img_to_string img')),
                   Suspended works' frame', w2)
              end
          end
    end
  else
    let w1 := Cv2.release w in
    if Cv2.hasattr cv2 "destroyAllWindows"
    then (Raise StopIteration, Finished, w1)
    else (Raise AttributeError, Finished, w1).

(** From the first statement of [generate_secure_hash] to the loop:
    the window, the capture, [exit(-1)] if it is not open, the first read. *)
Definition start (cv2 : Cv2.namespace) (w : Cv2.World)
    : outcome * generator * Cv2.World :=
  if negb (Cv2.hasattr cv2 "namedWindows") then (Raise AttributeError, Finished, w)
  else if negb (Cv2.hasattr cv2 "VideoCapture")
  then (Raise AttributeError, Finished, w)
  else
    let w1 := Cv2.VideoCapture w in
    if negb (Cv2.isOpened w1) then (Raise (SystemExit (-1)), Finished, w1)
    else
      let '(works, frame, w2) := Cv2.read w1 in
      loop cv2 works frame w2.

(** [generate_secure_hash()]: calling the generator function runs none of
    its body. *)
Definition generate_secure_hash : generator := Created.

(** [next(generator)] *)
Definition next (cv2 : Cv2.namespace) (g : generator) (w : Cv2.World)
    : outcome * generator * Cv2.World :=
  match g with
  | Created => start cv2 w
  | Suspended works frame => loop cv2 works frame w
  | Finished => (Raise StopIteration, Finished, w)
  end.

(** [generator.close()]: the body has no handler around its [yield], so
    closing runs none of its statements. *)
Definition close (g : generator) (w : Cv2.World) : generator * Cv2.World :=
  (Finished, w).

(** [main()]: [fuel] bounds the turns of [while True]; the result is the
    lines printed, the exception that ended the loop if one did, and the
    final generator and world. *)
Fixpoint main_loop (fuel : nat) (cv2 : Cv2.namespace) (g : generator)
    (w : Cv2.World) (printed : list str)
    : list str * option exn * generator * Cv2.World :=
  match fuel with
  | O => (printed, None, g, w)
  | S fuel' =>
      match next cv2 g w with
      | (Yield res, g', w') => main_loop fuel' cv2 g' w' (printed ++ [res])
      | (Raise e, g', w') => (printed, Some e, g', w')
      end
  end.

Definition main (fuel : nat) (cv2 : Cv2.namespace) (w : Cv2.World) :=
  main_loop fuel cv2 generate_secure_hash w [].

(** What a consumer does with the generator. *)
Inductive event : Type :=
| Pull
| Cancel.

Definition step (cv2 : Cv2.namespace) (e : event)
    (st : generator * Cv2.World) : generator * Cv2.World :=
  match e with
  | Pull => let '(_, g, w) := next cv2 (fst st) (snd st) in (g, w)
  | Cancel => close (fst st) (snd st)
  end.

Definition session (cv2 : Cv2.namespace) (evs : list event)
    (st : generator * Cv2.World) : generator * Cv2.World :=
  fold_left (fun st e => step cv2 e st) evs st.

(** The digests a sequence of pulls delivers, in order. *)
Fixpoint pulls (n : nat) (cv2 : Cv2.namespace) (g : generator) (w : Cv2.World)
    : list str :=
  match n with
  | O => []
  | S n' =>
      match next cv2 g w with
      | (Yield res, g', w') => res :: pulls n' cv2 g' w'
      | (Raise _, g', w') => pulls n' cv2 g' w'
      end
  end.

(** ** Shapes *)

(** [h] rows of [wd] pixels of [c] samples. *)
Definition has_shape (h wd c : nat) (a : ndarray) : Prop :=
  List.length a = h
  /\ Forall (fun plane =>
               List.length plane = wd
               /\ Forall (fun px => List.length px = c) plane) a.

(** Every sample fits a byte. *)
Definition uint8 (a : ndarray) : Prop :=
  Forall (Forall (Forall (fun v => (0 <= v < 256)%Z))) a.

(** The sample at row [i], column [j], channel [k]. *)
Definition sample (a : ndarray) (i j k : nat) : Z :=
  nth k (nth j (nth i a []) []) 0%Z.

(** The list with its [n]-th item replaced by [x]. *)
Definition set_nth {A : Type} (n : nat) (x : A) (l : list A) : list A :=
  firstn n l ++ match skipn n l with [] => [] | _ :: r => x :: r end.

(** The array with the sample at [(i, j, k)] replaced by [v]. *)
Definition perturb (a : ndarray) (i j k : nat) (v : Z) : ndarray :=
  set_nth i (set_nth j (set_nth k v (nth j (nth i a []) [])) (nth i a [])) a.

(** ** Fixtures *)

(** A frame of one colour: [h] rows of [wd] pixels [v, v, v]. *)
Definition flat_frame (h wd : nat) (v : Z) : ndarray :=
  repeat (repeat [v; v; v] wd) h.

(** Three frames of 101 rows and 201 columns, whose crop is one pixel. *)
Definition frame0 : ndarray := flat_frame 101 201 0.
Definition frame1 : ndarray := flat_frame 101 201 7.
Definition frame2 : ndarray := flat_frame 101 201 9.

(** A module that answers to [namedWindows] besides the OpenCV names. *)
Definition patched : Cv2.namespace := "namedWindows"%string :: Cv2.opencv.

(** A camera not yet opened that delivers [frames] and then fails. *)
Definition camera (frames : list ndarray) : Cv2.World :=
  Cv2.mkWorld true (nth_error frames) 0 false 0 0 [].

(** A camera that delivers [frame] on every read but the [k]-th. *)
Definition glitch (k : nat) (frame : ndarray) : Cv2.World :=
  Cv2.mkWorld true (fun i => if i =? k then None else Some frame)
    0 false 0 0 [].

(** A world in which the script has not touched the device yet. *)
Definition fresh (w : Cv2.World) : Prop :=
  Cv2.is_open w = false /\ Cv2.opened w = 0 /\ Cv2.released w = 0.

(** The states a session can reach from a fresh world: the handle is
    held exactly while the generator is suspended. *)
Definition handle_inv (st : generator * Cv2.World) : Prop :=
  match fst st with
  | Created => fresh (snd st)
  | Suspended _ _ =>
      Cv2.is_open (snd st) = true /\ Cv2.opened (snd st) = 1
      /\ Cv2.released (snd st) = 0
  | Finished =>
      Cv2.released (snd st) <= Cv2.opened (snd st) /\ Cv2.opened (snd st) <= 1
  end.

(** The names the generator looks up in [cv2]. *)
Definition provides (cv2 : Cv2.namespace) : Prop :=
  Cv2.hasattr cv2 "namedWindows" = true
  /\ Cv2.hasattr cv2 "VideoCapture" = true
  /\ Cv2.hasattr cv2 "imshow" = true
  /\ Cv2.hasattr cv2 "destroyAllWindows" = true.

(** A frame whose crop has pixels, so that the preview accepts it. *)
Definition displayable (frame : ndarray) : Prop :=
  size (crop_frame frame) <> 0.

(** ** Vocabulary of the proofs about the text of an array *)

Definition code (c : ascii) : Z := Z.of_nat (nat_of_ascii c).

Definition is_digit (c : ascii) : bool :=
  (48 <=? nat_of_ascii c) && (nat_of_ascii c <=? 57).

(** The number of decimal digits of a byte. *)
Definition digits (v : Z) : nat :=
  if (v <? 10)%Z then 1 else if (v <? 100)%Z then 2 else 3.

(** The number a run of digits denotes. *)
Definition parse_digits (s : str) : Z :=
  fold_left (fun acc c => (10 * acc + (code c - 48))%Z) s 0%Z.

(** A property of all 256 bytes, decided by running through them. *)
Definition uint8_all (p : Z -> bool) : bool :=
  forallb (fun n => p (Z.of_nat n)) (seq 0 256).

(** What [str_of_int] gives on a byte: its digits, no more. *)
Definition word_check (v : Z) : bool :=
  let s := Py.str_of_int v in
  (List.length s =? digits v) && forallb is_digit s
  && (parse_digits s =? v)%Z.

(** A text that ends in a character [rstrip] keeps. *)
Definition solid (x : str) : Prop :=
  exists y c, x = y ++ [c] /\ Py.isspace c = false.

(** The characters of the words and fillers of a row: neither a closing
    bracket nor a line break. *)
Definition plain (c : ascii) : Prop := c <> "]"%char /\ c <> newline.

(** The row that [extend_words] builds with an empty separator, as one
    text: [col] is the length of the line so far. *)
Fixpoint lay (elem_width : nat) (indent : str) (col : nat) (words : list str)
    : str :=
  match words with
  | [] => []
  | x :: rest =>
      if (elem_width <? col + List.length x)
         && negb (col <=? List.length indent)
      then newline :: indent ++ x
           ++ lay elem_width indent (List.length indent + List.length x) rest
      else x ++ lay elem_width indent (col + List.length x) rest
  end.

(** The items after the first that [join_items] strings together. *)
Fixpoint chain (indent line_sep : str) (items : list str) : str :=
  match items with
  | [] => []
  | x :: rest => line_sep ++ indent ++ x ++ chain indent line_sep rest
  end.

(** Two texts of one length whose equality gives [P]. *)
Definition aligned (x y : str) (P : Prop) : Prop :=
  List.length x = List.length y /\ (x = y -> P).

(** The characters of a text that are not line breaks, and those that are. *)
Definition count_other (s : str) : nat :=
  List.length (filter (fun c => negb (Ascii.eqb c newline)) s).

Definition count_breaks (s : str) : nat :=
  List.length (filter (fun c => Ascii.eqb c newline) s).

(** The text before the first closing bracket. *)
Fixpoint before_bracket (s : str) : str :=
  match s with
  | [] => []
  | c :: r => if Ascii.eqb c "]"%char then [] else c :: before_bracket r
  end.

(** The visited items of an axis of length [n], from its edge items. *)
Definition mark {A : Type} (n : nat) (e : list A) : list (option A) :=
  if 2 * edgeitems <? n
  then map Some (firstn edgeitems e) ++ [None] ++ map Some (skipn edgeitems e)
  else map Some e.

(** Two inputs on which Whirlpool gives one digest. *)
Definition collision (x y : list Z) : Prop :=
  x <> y /\ Whirlpool.digest x = Whirlpool.digest y.

(** An index that the summary of an axis of length [n] leaves out. *)
Definition interior (i n : nat) : Prop := edgeitems <= i /\ i + edgeitems < n.

(** The bytes whose digits fit a field of [w] characters. *)
Definition fits (w : nat) (v : Z) : Prop := (0 <= v < 256)%Z /\ digits v <= w.

(** [has_shape] and [uint8], decided. *)
Definition has_shapeb (h wd c : nat) (a : ndarray) : bool :=
  (List.length a =? h)
  && forallb (fun plane =>
                (List.length plane =? wd)
                && forallb (fun px => List.length px =? c) plane) a.

Definition uint8b (a : ndarray) : bool :=
  forallb (forallb (forallb (fun v => (0 <=? v)%Z && (v <? 256)%Z))) a.

(** Two regions of 20 x 20 pixels that differ in the green sample of the
    pixel in row 10, column 10. *)
Definition region_a : ndarray := flat_frame 20 20 5.
Definition region_b : ndarray := perturb region_a 10 10 1 200.

(** The value of a lowercase hexadecimal digit. *)
Definition hexval (c : ascii) : Z :=
  if (code c <? 58)%Z then (code c - 48)%Z else (code c - 87)%Z.

(** The two digits of a byte give the byte back. *)
Definition hex_check (b : Z) : bool :=
  (16 * hexval (Whirlpool.hexdigit (Z.shiftr b 4))
   + hexval (Whirlpool.hexdigit (Z.land b 15)) =? b)%Z.

(** The code point at the head of a UTF-8 text of one or two bytes per
    character, and the bytes after it. *)
Definition utf8_head (bs : list Z) : option (Z * list Z) :=
  match bs with
  | [] => None
  | x :: r =>
      if (x <? 128)%Z then Some (x, r)
      else match r with
           | [] => None
           | y :: r' => Some ((64 * (x - 192) + (y - 128))%Z, r')
           end
  end.

Definition utf8_check (n : Z) : bool :=
  match utf8_head (Py.encode_char (ascii_of_nat (Z.to_nat n))) with
  | Some (m, []) => (m =? n)%Z
  | _ => false
  end.

(** ** What a run of [main] leaves behind *)

Definition run := (list str * option exn * generator * Cv2.World)%type.

(** The lines printed, the exception that ended the run, the world. *)
Definition printed_by (r : run) : list str := fst (fst (fst r)).
Definition ended_by (r : run) : option exn := snd (fst (fst r)).
Definition world_after (r : run) : Cv2.World := snd r.

(** The digest the script computes for a frame. *)
Definition digest_of (frame : ndarray) : str := hash (img_to_string frame).

(** The alphabet of [array2string] on bytes with an empty separator:
    brackets, the blank, the dot of the summary mark, the line break and
    the ten digits. *)
Definition text_char (c : ascii) : Prop :=
  In c ("["%char :: "]"%char :: " "%char :: "."%char :: newline
        :: lit "0123456789").

(** The world after the capture is opened and the first frame is read. *)
Definition primed (w : Cv2.World) : Cv2.World :=
  Cv2.mkWorld true (Cv2.script w) (S (Cv2.reads w)) true (S (Cv2.opened w))
    (Cv2.released w) (Cv2.displayed w).

(** Two visited items of one kind, related by [R] when both are present. *)
Definition optrel {A : Type} (R : A -> A -> Prop) (o o' : option A) : Prop :=
  match o, o' with
  | Some x, Some y => R x y
  | None, None => True
  | _, _ => False
  end.


(** * Whirlpool: test vectors and the shape of a digest *)

Section WhirlpoolFacts.
Import Whirlpool.
Open Scope Z_scope.

Lemma byte_of_log2 x : 0 <= x -> Z.log2 x < 8 -> byte x.
Proof.
  intros H0 Hl. split; [exact H0|].
  destruct (Z.eq_dec x 0) as [->|Hn]; [lia|].
  apply (Z.log2_lt_pow2 x 8); lia.
Qed.

Lemma log2_of_byte x : byte x -> Z.log2 x < 8.
Proof.
  intros [H0 H1]. destruct (Z.eq_dec x 0) as [->|Hn]; [simpl; lia|].
  apply (Z.log2_lt_pow2 x 8); lia.
Qed.

Lemma byte_lxor a b : byte a -> byte b -> byte (Z.lxor a b).
Proof.
  intros Ha Hb. apply byte_of_log2.
  - apply Z.lxor_nonneg. unfold byte in *. lia.
  - pose proof (Z.log2_lxor a b (proj1 Ha) (proj1 Hb)).
    pose proof (log2_of_byte _ Ha). pose proof (log2_of_byte _ Hb). lia.
Qed.

Lemma byte_lor a b : byte a -> byte b -> byte (Z.lor a b).
Proof.
  intros Ha Hb. apply byte_of_log2.
  - apply Z.lor_nonneg. unfold byte in *. lia.
  - rewrite (Z.log2_lor a b (proj1 Ha) (proj1 Hb)).
    pose proof (log2_of_byte _ Ha). pose proof (log2_of_byte _ Hb). lia.
Qed.

Lemma byte_land_255 x : byte (Z.land x 255).
Proof.
  change 255 with (Z.ones 8). rewrite Z.land_ones by lia.
  unfold byte. apply Z.mod_pos_bound. lia.
Qed.

Lemma mini_nibble t x :
  Forall (fun v => 0 <= v < 16) t -> 0 <= mini t x < 16.
Proof.
  intros Ht. unfold mini.
  destruct (nth_in_or_default (Z.to_nat x) t 0) as [Hin | ->]; [|lia].
  rewrite Forall_forall in Ht. exact (Ht _ Hin).
Qed.

Lemma nibble_tables :
  Forall (fun v => 0 <= v < 16) E_box
  /\ Forall (fun v => 0 <= v < 16) Einv_box
  /\ Forall (fun v => 0 <= v < 16) R_box.
Proof. repeat split; repeat constructor; lia. Qed.

Lemma byte_sbox x : byte (sbox x).
Proof.
  destruct nibble_tables as (HE & HI & HR).
  unfold sbox. cbv zeta.
  apply byte_lor.
  - match goal with |- byte (Z.shiftl ?e 4) =>
      pose proof (mini_nibble E_box
        (Z.lxor (mini E_box (Z.shiftr x 4))
           (mini R_box
              (Z.lxor (mini E_box (Z.shiftr x 4))
                 (mini Einv_box (Z.land x 15)))))
        HE) as Hm
    end.
    rewrite Z.shiftl_mul_pow2 by lia. unfold byte. change (2 ^ 4) with 16. lia.
  - match goal with |- byte (mini ?t ?y) =>
      pose proof (mini_nibble t y HI) as Hm end.
    unfold byte. lia.
Qed.

Lemma byte_xtime x : byte x -> byte (xtime x).
Proof.
  intros Hx. unfold xtime. cbv zeta.
  destruct (Z.testbit x 7) eqn:Hb.
  - apply byte_lxor; [apply byte_land_255 | unfold byte; lia].
  - rewrite Z.shiftl_mul_pow2 by lia. change (2 ^ 1) with 2.
    assert (x < 128); [|unfold byte in *; lia].
    destruct (Z_lt_ge_dec x 128) as [Hlt|Hge]; [exact Hlt|exfalso].
    assert (Z.testbit x 7 = true); [|congruence].
    rewrite Z.testbit_true by lia. change (2 ^ 7) with 128.
    unfold byte in Hx.
    assert (x / 128 = 1) as ->; [|reflexivity].
    symmetry. apply (Z.div_unique x 128 1 (x - 128)); lia.
Qed.

Lemma byte_gmul c x : byte x -> byte (gmul c x).
Proof.
  intros Hx. unfold gmul.
  repeat match goal with
         | |- byte (match ?c with _ => _ end) => destruct c
         end;
    repeat first [ exact Hx | apply byte_lxor | apply byte_xtime
                 | (unfold byte; lia) ].
Qed.

Lemma byte_nth l p : Forall byte l -> byte (nth p l 0).
Proof.
  intros Hl. destruct (nth_in_or_default p l 0) as [Hin | ->].
  - rewrite Forall_forall in Hl. exact (Hl _ Hin).
  - unfold byte; lia.
Qed.

Lemma byte_xor_all l : Forall byte l -> byte (xor_all l).
Proof.
  unfold xor_all.
  assert (forall acc, byte acc -> Forall byte l -> byte (fold_left Z.lxor l acc)) as H.
  { induction l as [|y l IH]; intros acc Ha Hl; simpl; [exact Ha|].
    inversion Hl; subst. apply IH; [apply byte_lxor|]; assumption. }
  apply H. unfold byte; lia.
Qed.

Lemma Forall_map_intro {A B} (P : B -> Prop) (f : A -> B) l :
  (forall x, P (f x)) -> Forall P (map f l).
Proof. intros H. induction l; simpl; constructor; auto. Qed.

Lemma block_gamma a : block a -> block (gamma a).
Proof.
  intros [Hl _]. split; unfold gamma.
  - rewrite length_map. exact Hl.
  - apply Forall_map_intro. apply byte_sbox.
Qed.

Lemma block_pi a : block a -> block (pi a).
Proof.
  intros [_ Hb]. split; unfold pi.
  - rewrite length_map. reflexivity.
  - apply Forall_map_intro. intros p. apply byte_nth, Hb.
Qed.

Lemma block_theta a : block a -> block (theta a).
Proof.
  intros [_ Hb]. split; unfold theta.
  - rewrite length_map. reflexivity.
  - apply Forall_map_intro. intros p. apply byte_xor_all.
    apply Forall_map_intro. intros t. apply byte_gmul, byte_nth, Hb.
Qed.

Lemma block_sigma k a : Forall byte k -> Forall byte a -> block (sigma k a).
Proof.
  intros Hk Ha. split; unfold sigma.
  - rewrite length_map. reflexivity.
  - apply Forall_map_intro. intros p. apply byte_lxor; apply byte_nth; assumption.
Qed.

Lemma block_rho k a : Forall byte k -> block a -> block (rho k a).
Proof.
  intros Hk Ha. unfold rho. apply block_sigma; [exact Hk|].
  apply block_theta, block_pi, block_gamma, Ha.
Qed.

Lemma bytes_round_const r : Forall byte (round_const r).
Proof.
  unfold round_const. apply Forall_map_intro. intros p.
  destruct (p <? 8)%nat; [apply byte_sbox | unfold byte; lia].
Qed.

Lemma block_W key blk :
  Forall byte key -> Forall byte blk -> block (W key blk).
Proof.
  intros Hk Hb. unfold W.
  assert (forall rs k s, Forall byte k -> block s ->
            block (snd (fold_left
              (fun '(k, s) r =>
                 let k' := rho (round_const r) k in
                 (k', rho k' s)) rs (k, s)))) as H.
  { induction rs as [|r rs IH]; intros k s Hk' Hs; simpl; [exact Hs|].
    assert (block (rho (round_const r) k)) as Hk2.
    { apply block_sigma; [apply bytes_round_const|].
      apply block_theta. split;
        [unfold pi; rewrite length_map; reflexivity|].
      unfold pi. apply Forall_map_intro. intros p.
      apply byte_nth. unfold gamma. apply Forall_map_intro, byte_sbox. }
    apply IH; [apply Hk2|]. apply block_rho; [apply Hk2 | exact Hs]. }
  apply H; [exact Hk|]. apply block_sigma; assumption.
Qed.

Lemma block_compress h blk :
  Forall byte h -> Forall byte blk -> block (compress h blk).
Proof.
  intros Hh Hb. unfold compress.
  apply block_sigma; [exact Hb|]. apply block_sigma; [exact Hh|].
  apply block_W; assumption.
Qed.

Lemma Forall_firstn_skipn {A} (P : A -> Prop) n l :
  Forall P l -> Forall P (firstn n l) /\ Forall P (skipn n l).
Proof.
  intros H. rewrite <- (firstn_skipn n l) in H. apply Forall_app in H. exact H.
Qed.

Lemma bytes_blocks fuel m :
  Forall byte m -> Forall (Forall byte) (blocks fuel m).
Proof.
  revert m. induction fuel as [|f IH]; intros m Hm; simpl; [constructor|].
  destruct m as [|x m']; [constructor|].
  destruct (Forall_firstn_skipn byte 64 (x :: m') Hm) as [H1 H2].
  constructor; [exact H1 | apply IH; exact H2].
Qed.

Lemma bytes_pad m : Forall byte m -> Forall byte (pad m).
Proof.
  intros Hm. unfold pad. cbv zeta.
  repeat (apply Forall_app; split); try exact Hm.
  - constructor; [unfold byte; lia | constructor].
  - apply Forall_forall. intros y Hy. apply repeat_spec in Hy. subst.
    unfold byte; lia.
  - unfold be_bytes. apply Forall_map_intro. intros i.
    apply byte_land_255.
Qed.

Lemma block_digest m : Forall byte m -> block (digest m).
Proof.
  intros Hm. unfold digest. cbv zeta.
  pose proof (bytes_blocks (List.length (pad m)) _ (bytes_pad m Hm)) as Hbs.
  assert (forall bs h, Forall (Forall byte) bs -> block h ->
            block (fold_left compress bs h)) as H.
  { induction bs as [|b bs IH]; intros h Hb Hh; simpl; [exact Hh|].
    inversion Hb; subst. apply IH; [assumption|].
    apply block_compress; [apply Hh | assumption]. }
  apply H; [exact Hbs|]. split; [reflexivity|].
  apply Forall_forall. intros y Hy. apply repeat_spec in Hy. subst.
  unfold byte; lia.
Qed.


(** The published test vectors of the final version of the algorithm. *)
Example whirlpool_empty :
  Whirlpool.hexdigest [] =
  lit "19fa61d75522a4669b44e39c1d2e1726c530232130d407f89afee0964997f7a73e83be698b288febcf88e3e03c4f0757ea8964e59b63d93708b138cc42a66eb3".
Proof. vm_compute. reflexivity. Qed.

Example whirlpool_abc :
  Whirlpool.hexdigest (Py.encode_utf8 (lit "abc")) =
  lit "4e2448a4c6f486bb16b6562c73b4020bf3043e3a731bce721ae1b303d97e6d4c7181eebdb6c57e277d0e34957114cbd6c797fc9d95d8b582d225292076d4eef5".
Proof. vm_compute. reflexivity. Qed.

Example whirlpool_two_blocks :
  Whirlpool.hexdigest (Py.encode_utf8
    (lit "12345678901234567890123456789012345678901234567890123456789012345678901234567890")) =
  lit "466ef18babb0154d25b9d38a6414f5c08784372bccb204d6549c4afadb6014294d5bd8df2a6c44e538cd047b2681a51a2c60481e88c5a20b2c2a80cf3a9a083b".
Proof. vm_compute. reflexivity. Qed.

(** ** The bytes a string is encoded to *)

Lemma byte_code (c : ascii) : Whirlpool.byte (Z.of_nat (nat_of_ascii c)).
Proof.
  pose proof (nat_ascii_bounded c). unfold Whirlpool.byte. lia.
Qed.

Lemma bytes_encode_char c : Forall Whirlpool.byte (Py.encode_char c).
Proof.
  unfold Py.encode_char. cbv zeta. pose proof (byte_code c) as Hc.
  destruct (Z.of_nat (nat_of_ascii c) <? 128)%Z.
  - constructor; [exact Hc | constructor].
  - constructor; [|constructor; [|constructor]].
    + apply byte_lor; [unfold Whirlpool.byte; lia|].
      rewrite Z.shiftr_div_pow2 by lia. change (2 ^ 6)%Z with 64%Z.
      unfold Whirlpool.byte in *. split.
      * apply Z.div_pos; lia.
      * apply Z.div_lt_upper_bound; lia.
    + apply byte_lor; [unfold Whirlpool.byte; lia|].
      change 63%Z with (Z.ones 6). rewrite Z.land_ones by lia.
      pose proof (Z.mod_pos_bound (Z.of_nat (nat_of_ascii c)) (2 ^ 6)).
      change (2 ^ 6)%Z with 64%Z in *. unfold Whirlpool.byte. lia.
Qed.

Lemma bytes_encode_utf8 s : Forall Whirlpool.byte (Py.encode_utf8 s).
Proof.
  unfold Py.encode_utf8. induction s as [|c s IH]; simpl; [constructor|].
  apply Forall_app. split; [apply bytes_encode_char | exact IH].
Qed.

(** ** The rendering in hexadecimal *)

Lemma lower_hex_hexdigit d : Whirlpool.lower_hex (Whirlpool.hexdigit d).
Proof.
  unfold Whirlpool.lower_hex, Whirlpool.hexdigit.
  destruct (nth_in_or_default (Z.to_nat d) (lit "0123456789abcdef") "0"%char)
    as [Hin | ->]; [exact Hin | simpl; auto].
Qed.

Lemma length_hex bs : List.length (Whirlpool.hex bs) = (2 * List.length bs)%nat.
Proof.
  unfold Whirlpool.hex. induction bs as [|b bs IH]; simpl; [reflexivity|].
  rewrite IH. lia.
Qed.

Lemma lower_hex_hex bs : Forall Whirlpool.lower_hex (Whirlpool.hex bs).
Proof.
  unfold Whirlpool.hex. induction bs as [|b bs IH]; simpl; [constructor|].
  constructor; [apply lower_hex_hexdigit|].
  constructor; [apply lower_hex_hexdigit | exact IH].
Qed.

(** C10: [hash] takes the text alone, runs the one 512-bit hash on its
    UTF-8 bytes and returns the 64 digest bytes as 128 lowercase
    hexadecimal characters. *)
Theorem hash_is_128_lower_hex_of_whirlpool :
  forall s : str,
    hash s = Whirlpool.hex (Whirlpool.digest (Py.encode_utf8 s))
    /\ Whirlpool.block (Whirlpool.digest (Py.encode_utf8 s))
    /\ List.length (hash s) = 128%nat
    /\ Forall Whirlpool.lower_hex (hash s).
Proof.
  intros s.
  pose proof (block_digest _ (bytes_encode_utf8 s)) as Hb.
  split; [reflexivity|]. split; [exact Hb|]. split.
  - unfold hash, Whirlpool.hexdigest. rewrite length_hex.
    destruct Hb as [-> _]. reflexivity.
  - apply lower_hex_hex.
Qed.

End WhirlpoolFacts.

(** * The generator *)

Section Stream.

(** ** One pull from the suspended generator *)

(** With the preview available and the cropped current frame not empty,
    a pull reads one frame and yields the digest of its text. *)
Lemma loop_yield cv2 cur m w :
  Cv2.hasattr cv2 "imshow" = true ->
  size (crop_frame cur) <> 0 ->
  Cv2.is_open w = true ->
  Cv2.script w (Cv2.reads w) = Some m ->
  loop cv2 true (Some cur) w =
    (Yield (hash (img_to_string m)), Suspended true (Some m),
     Cv2.mkWorld (Cv2.device_present w) (Cv2.script w) (S (Cv2.reads w)) true
       (Cv2.opened w) (Cv2.released w) (Cv2.displayed w ++ [crop_frame cur])).
Proof.
  intros Hattr Hsz Hopen Hread. unfold loop. rewrite Hattr. simpl.
  unfold Cv2.imshow. apply Nat.eqb_neq in Hsz. rewrite Hsz.
  unfold Cv2.read. simpl. rewrite Hopen, Hread. reflexivity.
Qed.

(** A pull on which the read fails raises and finishes the generator. *)
Lemma loop_read_failure cv2 cur w :
  Cv2.is_open w = true ->
  Cv2.script w (Cv2.reads w) = None ->
  exists e w', loop cv2 true (Some cur) w = (Raise e, Finished, w').
Proof.
  intros Hopen Hread. unfold loop.
  destruct (negb (Cv2.hasattr cv2 "imshow")); [eauto|].
  unfold Cv2.imshow. destruct (size (crop_frame cur) =? 0); [eauto|].
  unfold Cv2.read. simpl. rewrite Hopen, Hread. eauto.
Qed.

Lemma pulls_finished n cv2 w : pulls n cv2 Finished w = [].
Proof. induction n as [|n IH]; simpl; [reflexivity | exact IH]. Qed.

Lemma main_loop_finished n cv2 w printed :
  main_loop (S n) cv2 Finished w printed = (printed, Some StopIteration, Finished, w).
Proof. reflexivity. Qed.

(** C7: with the OpenCV names the first pull raises [AttributeError] at
    [cv2.namedWindows] and leaves the world as it was: the camera is not
    opened, nothing is read, and [main] prints no digest. *)
Theorem first_pull_raises_AttributeError :
  forall (w : Cv2.World) (fuel : nat),
    Cv2.hasattr Cv2.opencv "namedWindows" = false
    /\ Cv2.hasattr Cv2.opencv "namedWindow" = true
    /\ next Cv2.opencv generate_secure_hash w = (Raise AttributeError, Finished, w)
    /\ main (S fuel) Cv2.opencv w = ([], Some AttributeError, Finished, w)
    /\ pulls fuel Cv2.opencv generate_secure_hash w = [].
Proof.
  intros w fuel. repeat split.
  destruct fuel as [|n]; simpl; [reflexivity | apply pulls_finished].
Qed.



(** ** From the first statement to the loop *)

Lemma start_enters_loop cv2 w f0 :
  Cv2.hasattr cv2 "namedWindows" = true ->
  Cv2.hasattr cv2 "VideoCapture" = true ->
  Cv2.device_present w = true ->
  Cv2.script w (Cv2.reads w) = Some f0 ->
  start cv2 w =
    loop cv2 true (Some f0)
      (Cv2.mkWorld true (Cv2.script w) (S (Cv2.reads w)) true
         (S (Cv2.opened w)) (Cv2.released w) (Cv2.displayed w)).
Proof.
  intros Hn Hv Hd Hr. unfold start, Cv2.VideoCapture, Cv2.isOpened, Cv2.read.
  rewrite Hn, Hv, Hd. simpl. rewrite Hr. reflexivity.
Qed.

Lemma provides_patched : provides patched.
Proof. repeat split. Qed.

(** The pulls of a suspended generator over a run of good frames. *)
Lemma pulls_suspended cv2 :
  Cv2.hasattr cv2 "imshow" = true ->
  forall frames cur w,
    Cv2.is_open w = true ->
    Forall displayable (cur :: frames) ->
    (forall i, i < List.length frames ->
               Cv2.script w (Cv2.reads w + i) = nth_error frames i) ->
    pulls (List.length frames) cv2 (Suspended true (Some cur)) w
      = map (fun f => hash (img_to_string f)) frames.
Proof.
  intros Hattr. induction frames as [|m frames IH]; intros cur w Ho Hd Hs.
  - reflexivity.
  - inversion Hd as [|? ? Hcur Hrest]; subst.
    assert (Cv2.script w (Cv2.reads w) = Some m) as Hm.
    { specialize (Hs 0). rewrite Nat.add_0_r in Hs. apply Hs. simpl. lia. }
    cbn [List.length pulls next map].
    rewrite (loop_yield cv2 cur m w Hattr Hcur Ho Hm).
    f_equal. apply IH; [reflexivity | exact Hrest |].
    intros i Hi. cbn [Cv2.script Cv2.reads].
    replace (S (Cv2.reads w) + i) with (Cv2.reads w + S i) by lia.
    apply (Hs (S i)). simpl. lia.
Qed.

(** C9: from a camera that delivers [f0] and then [frames], the pulls
    yield the digests of [frames] in capture order and nothing for [f0]:
    one frame more is captured than digests are delivered. *)
Theorem digests_skip_first_frame :
  forall cv2 f0 frames,
    provides cv2 ->
    Forall displayable (f0 :: frames) ->
    pulls (List.length frames) cv2 generate_secure_hash (camera (f0 :: frames))
      = map (fun f => hash (img_to_string f)) frames
    /\ List.length (pulls (List.length frames) cv2 generate_secure_hash
                      (camera (f0 :: frames)))
       < List.length (f0 :: frames).
Proof.
  unfold generate_secure_hash.
  intros cv2 f0 frames (Hn & Hv & Hi & _) Hd.
  assert (pulls (List.length frames) cv2 Created (camera (f0 :: frames))
          = map (fun f => hash (img_to_string f)) frames) as Heq.
  { destruct frames as [|m frames]; [reflexivity|].
    cbn [List.length pulls next].
    rewrite (start_enters_loop cv2 (camera (f0 :: m :: frames)) f0 Hn Hv
               eq_refl eq_refl).
    change (pulls (S (List.length frames)) cv2 (Suspended true (Some f0))
              (Cv2.mkWorld true (nth_error (f0 :: m :: frames)) 1 true 1 0 [])
            = map (fun f => hash (img_to_string f)) (m :: frames)).
    apply (pulls_suspended cv2 Hi (m :: frames) f0); [reflexivity | exact Hd |].
    intros i _. reflexivity. }
  split; [exact Heq|]. rewrite Heq, length_map. simpl. lia.
Qed.

(** ** Read failures *)

(** C5: a read that fails while the generator is suspended in its loop
    ends the digest sequence: that pull raises, the generator is
    finished, and no later pull yields a digest or reads the device. *)
Theorem read_failure_ends_digests :
  forall cv2 cur w,
    Cv2.is_open w = true ->
    Cv2.script w (Cv2.reads w) = None ->
    exists e w',
      next cv2 (Suspended true (Some cur)) w = (Raise e, Finished, w')
      /\ (forall n, pulls n cv2 Finished w' = [])
      /\ (forall evs, session cv2 evs (Finished, w') = (Finished, w')).
Proof.
  intros cv2 cur w Ho Hr.
  destruct (loop_read_failure cv2 cur w Ho Hr) as (e & w' & Hl).
  exists e, w'. split; [exact Hl|]. split.
  - intros n. apply pulls_finished.
  - induction evs as [|ev evs IH]; [reflexivity|].
    unfold session in *. simpl. destruct ev; simpl; exact IH.
Qed.

(** ** The device handle *)

Ltac handle_arith := unfold handle_inv, fresh in *; simpl in *; lia.

Lemma loop_handle_inv cv2 works frame w :
  Cv2.is_open w = true -> Cv2.opened w = 1 -> Cv2.released w = 0 ->
  handle_inv (snd (fst (loop cv2 works frame w)), snd (loop cv2 works frame w)).
Proof.
  intros Ho H1 H0. unfold loop.
  destruct works.
  - destruct frame as [img|]; [|handle_arith].
    destruct (negb (Cv2.hasattr cv2 "imshow")); [handle_arith|].
    unfold Cv2.imshow. destruct (size (crop_frame img) =? 0); [handle_arith|].
    unfold Cv2.read. simpl. rewrite Ho.
    destruct (Cv2.script w (Cv2.reads w)); handle_arith.
  - destruct (Cv2.hasattr cv2 "destroyAllWindows"); handle_arith.
Qed.

Lemma start_handle_inv cv2 w :
  fresh w ->
  handle_inv (snd (fst (start cv2 w)), snd (start cv2 w)).
Proof.
  intros (Ho & H1 & H0). unfold start.
  destruct (negb (Cv2.hasattr cv2 "namedWindows")); [handle_arith|].
  destruct (negb (Cv2.hasattr cv2 "VideoCapture")); [handle_arith|].
  unfold Cv2.VideoCapture, Cv2.isOpened.
  destruct (Cv2.device_present w) eqn:Hd.
  - simpl. unfold Cv2.read. simpl.
    destruct (Cv2.script w (Cv2.reads w)); apply loop_handle_inv; simpl; lia.
  - handle_arith.
Qed.

Lemma step_handle_inv cv2 ev st : handle_inv st -> handle_inv (step cv2 ev st).
Proof.
  destruct st as [g w]. intros Hinv. destruct ev; simpl.
  - destruct g as [|works frame|]; simpl.
    + pose proof (start_handle_inv cv2 w Hinv) as H.
      destruct (start cv2 w) as [[o g'] w']. exact H.
    + destruct Hinv as (Ho & H1 & H0).
      pose proof (loop_handle_inv cv2 works frame w Ho H1 H0) as H.
      destruct (loop cv2 works frame w) as [[o g'] w']. exact H.
    + exact Hinv.
  - unfold handle_inv in *. simpl in *.
    destruct g; [destruct Hinv as (_ & -> & ->); lia | lia | exact Hinv].
Qed.

Lemma session_handle_inv cv2 evs st : handle_inv st -> handle_inv (session cv2 evs st).
Proof.
  revert st. induction evs as [|ev evs IH]; intros st H; [exact H|].
  unfold session in *. simpl. apply IH, step_handle_inv, H.
Qed.

Lemma handle_inv_bounds st :
  handle_inv st ->
  Cv2.released (snd st) <= Cv2.opened (snd st) /\ Cv2.opened (snd st) <= 1.
Proof.
  destruct st as [g w]. unfold handle_inv, fresh. simpl.
  destruct g; intros H; lia.
Qed.

(** The pull that leaves the loop through its test releases the handle. *)
Lemma loop_exit_releases cv2 works frame w g' w' :
  loop cv2 works frame w = (Raise StopIteration, g', w') ->
  Cv2.released w' = S (Cv2.released w) /\ Cv2.is_open w' = false.
Proof.
  unfold loop. destruct works.
  - destruct frame as [img|]; [|discriminate].
    destruct (negb (Cv2.hasattr cv2 "imshow")); [discriminate|].
    destruct (Cv2.imshow (crop_frame img) w) as [w1|]; [|discriminate].
    destruct (Cv2.read w1) as [[wk fr] w2].
    destruct fr; discriminate.
  - destruct (Cv2.hasattr cv2 "destroyAllWindows"); [|discriminate].
    intros H. inversion H; subst. simpl. auto.
Qed.

Lemma start_exit_releases cv2 w g' w' :
  start cv2 w = (Raise StopIteration, g', w') ->
  Cv2.released w' = S (Cv2.released w) /\ Cv2.is_open w' = false.
Proof.
  unfold start.
  destruct (negb (Cv2.hasattr cv2 "namedWindows")); [discriminate|].
  destruct (negb (Cv2.hasattr cv2 "VideoCapture")); [discriminate|].
  destruct (negb (Cv2.isOpened (Cv2.VideoCapture w))); [discriminate|].
  destruct (Cv2.read (Cv2.VideoCapture w)) as [[works frame] w2] eqn:Hr.
  intros H. apply loop_exit_releases in H.
  assert (Cv2.released w2 = Cv2.released w) as <-; [|exact H].
  unfold Cv2.read, Cv2.VideoCapture in Hr.
  destruct (Cv2.device_present w); simpl in Hr;
    repeat match type of Hr with
           | (if ?b then _ else _) = _ => destruct b
           | match ?o with _ => _ end = _ => destruct o
           end;
    inversion Hr; reflexivity.
Qed.

(** C6: in every session from a fresh world the handle is released at
    most once and only after it was opened; the pull that leaves the loop
    through its test, and then raises [StopIteration], releases it;
    cancelling touches nothing. *)
Theorem handle_released_at_most_once :
  forall cv2 evs w0,
    fresh w0 ->
    (Cv2.released (snd (session cv2 evs (generate_secure_hash, w0)))
       <= Cv2.opened (snd (session cv2 evs (generate_secure_hash, w0)))
     /\ Cv2.opened (snd (session cv2 evs (generate_secure_hash, w0))) <= 1)
    /\ (forall g w g' w',
          g <> Finished ->
          next cv2 g w = (Raise StopIteration, g', w') ->
          Cv2.released w' = S (Cv2.released w) /\ Cv2.is_open w' = false)
    /\ (forall g w, snd (close g w) = w).
Proof.
  intros cv2 evs w0 Hf. split; [|split].
  - apply handle_inv_bounds, session_handle_inv. exact Hf.
  - intros g w g' w' Hg. destruct g as [|works frame|]; [| |congruence].
    + apply start_exit_releases.
    + apply loop_exit_releases.
  - reflexivity.
Qed.

End Stream.
(** * Sessions on concrete cameras *)

Section Sessions.

Lemma displayable_flat v : displayable (flat_frame 101 201 v).
Proof. unfold displayable. vm_compute. discriminate. Qed.

Ltac run_start f :=
  rewrite (start_enters_loop patched _ f eq_refl eq_refl);
  [ | reflexivity | reflexivity ].

Ltac run_pull cur m :=
  rewrite (loop_yield patched cur m);
  [ | reflexivity | apply displayable_flat | reflexivity | reflexivity ].

(** C1: with frames [frame0], [frame1] the first pull shows the crop of [frame0],
    reads [frame1] and yields the digest of the text of the whole of [frame1];
    the digest of the text of the crop of [frame1] is another string. *)
Theorem pull_digests_uncropped_frame :
  next patched generate_secure_hash (camera [frame0; frame1])
    = (Yield (hash (img_to_string frame1)), Suspended true (Some frame1),
       Cv2.mkWorld true (nth_error [frame0; frame1]) 2 true 1 0 [crop_frame frame0])
  /\ hash (img_to_string frame1) <> hash (img_to_string (crop_frame frame1))
  /\ img_to_string (crop_frame frame1) = lit "[[[777]]]".
Proof.
  split; [|split].
  - unfold generate_secure_hash, next.
    run_start frame0.
    run_pull frame0 frame1.
    reflexivity.
  - intros H. vm_compute in H. discriminate H.
  - vm_compute. reflexivity.
Qed.


Lemma digests_skip_first_frame_witness :
  pulls 2 patched generate_secure_hash (camera [frame0; frame1; frame2])
    = [hash (img_to_string frame1); hash (img_to_string frame2)]
  /\ List.length (pulls 2 patched generate_secure_hash (camera [frame0; frame1; frame2])) < 3.
Proof.
  apply (digests_skip_first_frame patched frame0 [frame1; frame2]).
  - repeat split.
  - repeat constructor; vm_compute; discriminate.
Defined.

(** Three frames captured, two digests printed, then the failed fourth
    read ends [main] with the exception of [img_to_string(None)]; the
    digest of the first frame is not printed. *)
Lemma main_three_frames :
  exists w,
    main 5 patched (camera [frame0; frame1; frame2])
      = ([hash (img_to_string frame1); hash (img_to_string frame2)],
         Some AttributeError, Finished, w)
    /\ Cv2.reads w = 4
    /\ Cv2.released w = 0
    /\ ~ In (hash (img_to_string frame0))
            [hash (img_to_string frame1); hash (img_to_string frame2)].
Proof.
  eexists. split; [|split; [|split]].
  - unfold main, generate_secure_hash. cbn [main_loop next].
    run_start frame0.
    run_pull frame0 frame1.
    cbn [main_loop next].
    run_pull frame1 frame2.
    cbn [main_loop next]. reflexivity.
  - reflexivity.
  - reflexivity.
  - intros H. vm_compute in H. clear -H.
    destruct H as [H|[H|H]]; [discriminate H | discriminate H | exact H].
Qed.

Lemma read_failure_ends_digests_witness :
  exists e w',
    next patched (Suspended true (Some frame1))
         (Cv2.mkWorld true (nth_error [frame0; frame1]) 2 true 1 0 [crop_frame frame0])
      = (Raise e, Finished, w')
    /\ (forall n, pulls n patched Finished w' = [])
    /\ (forall evs, session patched evs (Finished, w') = (Finished, w')).
Proof.
  apply (read_failure_ends_digests patched frame1
           (Cv2.mkWorld true (nth_error [frame0; frame1]) 2 true 1 0 [crop_frame frame0])).
  - reflexivity.
  - reflexivity.
Defined.

(** The third read fails and every other read would succeed: one digest
    is delivered however many pulls follow, so the failure is not retried
    and delivery does not resume. *)
Lemma glitch_ends_digests :
  (forall k, k <> 2 -> Cv2.script (glitch 2 frame1) k = Some frame1)
  /\ forall n,
       pulls (2 + n) patched generate_secure_hash (glitch 2 frame1) = [hash (img_to_string frame1)].
Proof.
  split.
  - intros k Hk. simpl. apply Nat.eqb_neq in Hk. rewrite Hk. reflexivity.
  - intros n. unfold generate_secure_hash. cbn [Nat.add pulls next].
    run_start frame1.
    run_pull frame1 frame1.
    cbn [pulls next].
    match goal with
    | |- context [loop patched true (Some frame1) ?w] =>
        destruct (loop_read_failure patched frame1 w eq_refl eq_refl)
          as (e & w' & Hl); rewrite Hl
    end.
    rewrite pulls_finished. reflexivity.
Qed.

Lemma handle_released_at_most_once_witness :
  (Cv2.released (snd (session patched [Pull; Pull; Cancel; Pull]
                        (generate_secure_hash, camera [frame0; frame1])))
     <= Cv2.opened (snd (session patched [Pull; Pull; Cancel; Pull]
                           (generate_secure_hash, camera [frame0; frame1])))
   /\ Cv2.opened (snd (session patched [Pull; Pull; Cancel; Pull]
                         (generate_secure_hash, camera [frame0; frame1]))) <= 1)
  /\ (forall g w g' w',
        g <> Finished ->
        next patched g w = (Raise StopIteration, g', w') ->
        Cv2.released w' = S (Cv2.released w) /\ Cv2.is_open w' = false)
  /\ (forall g w, snd (close g w) = w).
Proof.
  apply (handle_released_at_most_once patched [Pull; Pull; Cancel; Pull]
           (camera [frame0; frame1])).
  repeat split.
Defined.

(** A camera whose first read fails: the first pull leaves the loop at
    once, releases the handle and raises [StopIteration]. *)
Lemma first_read_failure_releases :
  next patched generate_secure_hash (camera [])
    = (Raise StopIteration, Finished,
       Cv2.mkWorld true (nth_error []) 1 false 1 1 []).
Proof. reflexivity. Qed.

(** A session that pulls one digest and is cancelled ends with the handle
    opened once and never released. *)
Lemma cancelled_session_leaks_handle :
  fst (session patched [Pull; Cancel] (generate_secure_hash, camera [frame0; frame1])) = Finished
  /\ Cv2.opened (snd (session patched [Pull; Cancel] (generate_secure_hash, camera [frame0; frame1]))) = 1
  /\ Cv2.released (snd (session patched [Pull; Cancel] (generate_secure_hash, camera [frame0; frame1]))) = 0
  /\ Cv2.is_open (snd (session patched [Pull; Cancel] (generate_secure_hash, camera [frame0; frame1]))) = true.
Proof.
  unfold session, generate_secure_hash. cbn [fold_left step fst snd next].
  run_start frame0.
  run_pull frame0 frame1.
  repeat split.
Qed.

End Sessions.
(** * The crop *)

Section Crop.

Lemma length_slice {A} (start stop : nat) (l : list A) :
  List.length (Py.slice start stop l)
  = Nat.min (stop - start) (List.length l - start).
Proof. unfold Py.slice. rewrite length_firstn, length_skipn. reflexivity. Qed.

Lemma nth_slice {A} (start stop i : nat) (l : list A) (d : A) :
  i < stop - start ->
  nth i (Py.slice start stop l) d = nth (start + i) l d.
Proof.
  intros Hi. unfold Py.slice. rewrite nth_firstn.
  apply Nat.ltb_lt in Hi. rewrite Hi. apply nth_skipn.
Qed.

Lemma Forall_slice {A} (P : A -> Prop) (start stop : nat) (l : list A) :
  Forall P l -> Forall P (Py.slice start stop l).
Proof.
  intros H. unfold Py.slice.
  apply (Forall_firstn_skipn P (stop - start)).
  apply (Forall_firstn_skipn P start). exact H.
Qed.

(** The crop of an [h] x [wd] frame is what of the rectangle lies inside
    the frame. *)
Lemma crop_frame_shape h wd c a :
  has_shape h wd c a ->
  has_shape (Nat.min h 900 - 100) (Nat.min wd 350 - 200) c (crop_frame a).
Proof.
  intros [Hh Hrows]. unfold crop_frame. split.
  - rewrite length_map, length_slice, Hh. lia.
  - apply Forall_map. apply Forall_slice.
    eapply Forall_impl; [|exact Hrows].
    intros plane [Hw Hpx]. split.
    + rewrite length_slice, Hw. lia.
    + apply Forall_slice. exact Hpx.
Qed.

Lemma crop_frame_sample a i j k :
  i < 800 -> j < 150 ->
  sample (crop_frame a) i j k = sample a (100 + i) (200 + j) k.
Proof.
  intros Hi Hj. unfold sample, crop_frame.
  change (@nil (list Z)) with (Py.slice 200 350 (@nil (list Z))) at 1.
  rewrite map_nth.
  rewrite (nth_slice 100 900 i a []) by lia.
  rewrite (nth_slice 200 350 j) by lia.
  reflexivity.
Qed.

Lemma flat_frame_shape h wd v : has_shape h wd 3 (flat_frame h wd v).
Proof.
  unfold flat_frame. split; [apply repeat_length|].
  apply Forall_forall. intros plane Hp. apply repeat_spec in Hp. subst.
  split; [apply repeat_length|].
  apply Forall_forall. intros px Hx. apply repeat_spec in Hx. subst. reflexivity.
Qed.

(** C2: [crop_frame] has no failing case.  On a frame of [h] rows and
    [wd] columns it returns the rows 100 to 900 and columns 200 to 350 that
    exist, each sample taken from the same place of the frame; a frame
    that is too small gives a smaller region. *)
Theorem crop_frame_clamps :
  forall h wd c a,
    has_shape h wd c a ->
    has_shape (Nat.min h 900 - 100) (Nat.min wd 350 - 200) c (crop_frame a)
    /\ forall i j k,
         i < Nat.min h 900 - 100 ->
         j < Nat.min wd 350 - 200 ->
         sample (crop_frame a) i j k = sample a (100 + i) (200 + j) k.
Proof.
  intros h wd c a Hs. split; [apply crop_frame_shape, Hs|].
  intros i j k Hi Hj. apply crop_frame_sample; lia.
Qed.

Lemma crop_frame_clamps_witness :
  has_shape (Nat.min 480 900 - 100) (Nat.min 640 350 - 200) 3
    (crop_frame (flat_frame 480 640 9))
  /\ forall i j k,
       i < Nat.min 480 900 - 100 ->
       j < Nat.min 640 350 - 200 ->
       sample (crop_frame (flat_frame 480 640 9)) i j k
       = sample (flat_frame 480 640 9) (100 + i) (200 + j) k.
Proof.
  apply (crop_frame_clamps 480 640 3 (flat_frame 480 640 9)).
  apply flat_frame_shape.
Defined.

(** A frame one pixel short of the rectangle on both axes is cropped to
    799 x 149 and no error is raised. *)
Lemma crop_one_pixel_short_is_truncated :
  has_shape 799 149 3 (crop_frame (flat_frame 899 349 0))
  /\ ~ has_shape 800 150 3 (crop_frame (flat_frame 899 349 0)).
Proof.
  pose proof (crop_frame_shape 899 349 3 _ (flat_frame_shape 899 349 0)) as H.
  change (Nat.min 899 900 - 100) with 799 in H.
  change (Nat.min 349 350 - 200) with 149 in H.
  split; [exact H|]. intros [Hl _]. destruct H as [Hl' _]. congruence.
Qed.

End Crop.
(** * The words of the text *)

Section Words.

(** ** Lists *)

Lemma app_eq_length {A} (x x' r r' : list A) :
  List.length x = List.length x' -> x ++ r = x' ++ r' -> x = x' /\ r = r'.
Proof.
  revert x'. induction x as [|a x IH]; intros [|a' x'] Hl H; simpl in *;
    try discriminate.
  - auto.
  - injection H as -> H. destruct (IH x') as [-> ->]; [lia | exact H | auto].
Qed.

Lemma skipn_length_app {A} (l r : list A) : skipn (List.length l) (l ++ r) = r.
Proof. induction l; simpl; auto. Qed.

Lemma firstn_length_app {A} (l r : list A) : firstn (List.length l) (l ++ r) = l.
Proof. induction l; simpl; [destruct r; reflexivity | congruence]. Qed.

(** ** Bytes, one by one *)

Lemma uint8_all_spec p :
  uint8_all p = true -> forall v, (0 <= v < 256)%Z -> p v = true.
Proof.
  unfold uint8_all. intros H v Hv. rewrite forallb_forall in H.
  specialize (H (Z.to_nat v)). rewrite Z2Nat.id in H by lia.
  apply H. apply in_seq. lia.
Qed.

Lemma word_check_all : uint8_all word_check = true.
Proof. vm_compute. reflexivity. Qed.

Lemma word_facts v :
  (0 <= v < 256)%Z ->
  List.length (Py.str_of_int v) = digits v
  /\ forallb is_digit (Py.str_of_int v) = true
  /\ parse_digits (Py.str_of_int v) = v.
Proof.
  intros Hv. pose proof (uint8_all_spec _ word_check_all v Hv) as H.
  unfold word_check in H. cbv zeta in H.
  apply andb_prop in H. destruct H as [H H3].
  apply andb_prop in H. destruct H as [H1 H2].
  apply Nat.eqb_eq in H1. apply Z.eqb_eq in H3. auto.
Qed.

Lemma str_of_int_inj u v :
  (0 <= u < 256)%Z -> (0 <= v < 256)%Z ->
  Py.str_of_int u = Py.str_of_int v -> u = v.
Proof.
  intros Hu Hv H.
  destruct (word_facts u Hu) as (_ & _ & <-).
  destruct (word_facts v Hv) as (_ & _ & <-).
  rewrite H. reflexivity.
Qed.

Lemma digits_pos v : 1 <= digits v.
Proof. unfold digits. destruct (v <? 10)%Z, (v <? 100)%Z; lia. Qed.

Lemma digits_mono u v : (u <= v)%Z -> digits u <= digits v.
Proof.
  intros H. unfold digits.
  destruct (Z.ltb_spec u 10), (Z.ltb_spec v 10), (Z.ltb_spec u 100),
    (Z.ltb_spec v 100); lia.
Qed.

(** ** Digits are neither blank nor brackets *)

Lemma digit_not_space c : is_digit c = true -> Py.isspace c = false.
Proof.
  unfold is_digit, Py.isspace. cbv zeta. intros H.
  apply andb_prop in H. destruct H as [H1 H2].
  apply Nat.leb_le in H1. apply Nat.leb_le in H2.
  repeat rewrite orb_false_iff. repeat split.
  - apply andb_false_iff. right. apply Nat.leb_gt. lia.
  - apply andb_false_iff. right. apply Nat.leb_gt. lia.
  - apply Nat.eqb_neq. lia.
  - apply Nat.eqb_neq. lia.
Qed.

Lemma digit_plain c : is_digit c = true -> plain c.
Proof.
  unfold is_digit. intros H. apply andb_prop in H. destruct H as [H1 H2].
  apply Nat.leb_le in H1. apply Nat.leb_le in H2.
  split; intros ->; vm_compute in H1, H2; lia.
Qed.

Lemma space_plain : plain " "%char.
Proof. split; discriminate. Qed.

Lemma dot_plain : plain "."%char.
Proof. split; discriminate. Qed.


(** ** Blanks at either end *)

Lemma lstrip_digits n s :
  s <> [] -> forallb is_digit s = true ->
  Py.lstrip (repeat " "%char n ++ s) = s.
Proof.
  intros Hne Hd. induction n as [|n IH]; simpl.
  - destruct s as [|c r]; [congruence|]. simpl in *.
    apply andb_prop in Hd. destruct Hd as [Hc _].
    rewrite (digit_not_space c Hc). reflexivity.
  - exact IH.
Qed.

Lemma rstrip_solid l x : solid x -> Py.rstrip (l ++ x) = l ++ x.
Proof.
  intros (y & c & -> & Hc). unfold Py.rstrip.
  rewrite app_assoc, rev_unit. simpl. rewrite Hc. simpl.
  rewrite rev_involutive. reflexivity.
Qed.

Lemma solid_app l x : solid x -> solid (l ++ x).
Proof.
  intros (y & c & -> & Hc). exists (l ++ y), c.
  rewrite app_assoc. auto.
Qed.

Lemma solid_digits s : s <> [] -> forallb is_digit s = true -> solid s.
Proof.
  intros Hne Hd. destruct (exists_last Hne) as (y & c & ->).
  exists y, c. split; [reflexivity|].
  apply digit_not_space. rewrite forallb_app in Hd.
  apply andb_prop in Hd. destruct Hd as [_ Hc]. simpl in Hc.
  rewrite andb_true_r in Hc. exact Hc.
Qed.

Lemma solid_summary : solid summary_insert.
Proof. exists (lit ".."), "."%char. split; reflexivity. Qed.

(** ** The extreme values of the data *)

Lemma fold_max_spec d l :
  (fold_right Z.max d l = d \/ In (fold_right Z.max d l) l)
  /\ forall v, In v l -> (v <= fold_right Z.max d l)%Z.
Proof.
  induction l as [|x l [IH1 IH2]]; simpl.
  - split; [auto | intros v []].
  - split.
    + destruct (Z.max_spec x (fold_right Z.max d l)) as [[_ ->] | [_ ->]];
        [destruct IH1; auto | auto].
    + intros v [<- | Hv]; [lia|]. specialize (IH2 v Hv). lia.
Qed.

Lemma maximum_spec x l :
  In (maximum (x :: l)) (x :: l)
  /\ forall v, In v (x :: l) -> (v <= maximum (x :: l))%Z.
Proof.
  unfold maximum. cbn [hd].
  destruct (fold_max_spec x (x :: l)) as [H1 H2]. split; [|exact H2].
  destruct H1 as [-> | H]; [left; reflexivity | exact H].
Qed.

(** ** The words [IntegerFormat] prints for bytes *)

Lemma digits_le_width data v :
  Forall (fun v => (0 <= v < 256)%Z) data ->
  In v data -> digits v <= format_width data.
Proof.
  intros Hb Hv. unfold format_width.
  destruct data as [|x l]; [destruct Hv|].
  destruct (maximum_spec x l) as [Hin Hmax].
  rewrite Forall_forall in Hb.
  destruct (word_facts _ (Hb _ Hin)) as (-> & _).
  pose proof (digits_mono _ _ (Hmax v Hv)). lia.
Qed.

Lemma length_word data v :
  Forall (fun v => (0 <= v < 256)%Z) data ->
  In v data -> List.length (IntegerFormat data v) = format_width data.
Proof.
  intros Hb Hv. unfold IntegerFormat, Py.rjust.
  pose proof (digits_le_width data v Hb Hv).
  rewrite Forall_forall in Hb.
  destruct (word_facts v (Hb v Hv)) as (Hl & _).
  rewrite length_app, repeat_length, Hl. lia.
Qed.

Lemma str_of_int_nonempty v : (0 <= v < 256)%Z -> Py.str_of_int v <> [].
Proof.
  intros Hv H. destruct (word_facts v Hv) as (Hl & _).
  rewrite H in Hl. pose proof (digits_pos v). simpl in Hl. lia.
Qed.

Lemma solid_word w v : (0 <= v < 256)%Z -> solid (Py.rjust w (Py.str_of_int v)).
Proof.
  intros Hv. unfold Py.rjust. apply solid_app.
  destruct (word_facts v Hv) as (_ & Hd & _).
  apply solid_digits; [apply str_of_int_nonempty, Hv | exact Hd].
Qed.

Lemma plain_word w v :
  (0 <= v < 256)%Z -> Forall plain (Py.rjust w (Py.str_of_int v)).
Proof.
  intros Hv. unfold Py.rjust. apply Forall_app. split.
  - apply Forall_forall. intros c Hc. apply repeat_spec in Hc. subst.
    apply space_plain.
  - destruct (word_facts v Hv) as (_ & Hd & _).
    rewrite forallb_forall in Hd. apply Forall_forall. intros c Hc.
    apply digit_plain, Hd, Hc.
Qed.

(** Two bytes printed alike, in whatever widths, are one byte. *)
Lemma word_inj w w' u v :
  (0 <= u < 256)%Z -> (0 <= v < 256)%Z ->
  Py.rjust w (Py.str_of_int u) = Py.rjust w' (Py.str_of_int v) -> u = v.
Proof.
  intros Hu Hv H. apply (f_equal Py.lstrip) in H.
  unfold Py.rjust in H.
  destruct (word_facts u Hu) as (_ & Hdu & _).
  destruct (word_facts v Hv) as (_ & Hdv & _).
  rewrite (lstrip_digits _ _ (str_of_int_nonempty u Hu) Hdu) in H.
  rewrite (lstrip_digits _ _ (str_of_int_nonempty v Hv) Hdv) in H.
  apply str_of_int_inj; assumption.
Qed.

End Words.
(** * The layout of the text *)

Section Layout.

(** ** The last axis *)

Lemma extend_words_cons ew indent x rest s line :
  extend_words [] ew indent (x :: rest) s line
  = extend_words [] ew indent rest
      (fst (extendLine s line x ew indent)) (snd (extendLine s line x ew indent)).
Proof.
  cbn [extend_words]. destruct (extendLine s line x ew indent) as [s1 line1].
  destruct rest; [reflexivity|]. rewrite app_nil_r. reflexivity.
Qed.

(** [extend_words] writes the row that [lay] describes. *)
Lemma extend_words_lay ew indent words :
  Forall solid words ->
  forall s line,
    (List.length line <= List.length indent \/ Py.rstrip line = line) ->
    fst (extend_words [] ew indent words s line)
      ++ snd (extend_words [] ew indent words s line)
    = s ++ line ++ lay ew indent (List.length line) words.
Proof.
  induction words as [|x rest IH]; intros Hw s line Hline.
  - simpl. rewrite app_nil_r. reflexivity.
  - inversion Hw as [|? ? Hx Hrest]; subst.
    rewrite extend_words_cons. unfold extendLine. cbn [lay].
    destruct ((ew <? List.length line + List.length x)
              && negb (List.length line <=? List.length indent)) eqn:Hwrap.
    + cbn [fst snd]. rewrite (IH Hrest).
      2:{ right. apply rstrip_solid, Hx. }
      apply andb_prop in Hwrap. destruct Hwrap as [_ Hgt].
      apply negb_true_iff, Nat.leb_gt in Hgt.
      destruct Hline as [Hle | ->]; [lia|].
      rewrite length_app. repeat rewrite <- app_assoc. reflexivity.
    + cbn [fst snd]. rewrite (IH Hrest).
      2:{ right. apply rstrip_solid, Hx. }
      rewrite length_app. repeat rewrite <- app_assoc. reflexivity.
Qed.

Lemma format_last_axis_lay indent width words :
  Forall solid words ->
  format_last_axis [] indent width words
  = lit "[" ++ lay (width - 1) indent (List.length indent) words ++ lit "]".
Proof.
  intros Hw. unfold format_last_axis. cbv zeta.
  change (width - Nat.max (List.length (Py.rstrip [])) 1) with (width - 1).
  pose proof (extend_words_lay (width - 1) indent words Hw [] indent
                (or_introl (le_n _))) as H.
  destruct (extend_words [] (width - 1) indent words [] indent) as [s line].
  cbn [fst snd] in H. rewrite H. cbn [app].
  rewrite skipn_length_app. reflexivity.
Qed.

(** ** The other axes *)

Lemma join_items_chain indent line_sep x rest :
  join_items indent line_sep (x :: rest)
  = indent ++ x ++ chain indent line_sep rest.
Proof.
  revert x. induction rest as [|y rest IH]; intros x.
  - simpl. rewrite app_nil_r. reflexivity.
  - change (join_items indent line_sep (x :: y :: rest))
      with (indent ++ x ++ line_sep ++ join_items indent line_sep (y :: rest)).
    rewrite IH. reflexivity.
Qed.

Lemma format_outer_axis_chain indent axes_left x rest :
  format_outer_axis [] indent axes_left (x :: rest)
  = lit "[" ++ (x ++ chain indent (repeat newline (axes_left - 1)) rest)
    ++ lit "]".
Proof.
  unfold format_outer_axis. cbv zeta.
  change (Py.rstrip [] ++ repeat newline (axes_left - 1))
    with (repeat newline (axes_left - 1)).
  rewrite join_items_chain, skipn_length_app. reflexivity.
Qed.


(** ** Texts of one length *)

Lemma aligned_refl x : aligned x x True.
Proof. split; auto. Qed.

Lemma aligned_same_length x y : List.length x = List.length y -> aligned x y (x = y).
Proof. intros H. split; auto. Qed.

Lemma aligned_app x y x' y' (P Q : Prop) :
  aligned x y P -> aligned x' y' Q -> aligned (x ++ x') (y ++ y') (P /\ Q).
Proof.
  intros [Hl HP] [Hl' HQ]. split.
  - rewrite !length_app. lia.
  - intros H. destruct (app_eq_length _ _ _ _ Hl H). auto.
Qed.

Lemma aligned_cons c x y (P : Prop) : aligned x y P -> aligned (c :: x) (c :: y) P.
Proof.
  intros [Hl HP]. split; [simpl; lia|]. intros H. injection H as H. auto.
Qed.

Lemma aligned_impl x y (P Q : Prop) : (P -> Q) -> aligned x y P -> aligned x y Q.
Proof. intros HPQ [Hl HP]. split; auto. Qed.

Lemma aligned_lay ew indent ws ws' :
  Forall2 (fun x x' => List.length x = List.length x') ws ws' ->
  forall col,
    aligned (lay ew indent col ws) (lay ew indent col ws') (ws = ws').
Proof.
  induction 1 as [|x x' ws ws' Hx Hws IH]; intros col.
  - simpl. split; auto.
  - cbn [lay]. rewrite <- Hx.
    destruct ((ew <? col + List.length x) && negb (col <=? List.length indent)).
    + apply aligned_cons.
      eapply aligned_impl;
        [|exact (aligned_app _ _ _ _ _ _ (aligned_refl indent)
                   (aligned_app _ _ _ _ _ _ (aligned_same_length x x' Hx)
                      (IH (List.length indent + List.length x))))].
      intros (_ & -> & ->). reflexivity.
    + eapply aligned_impl;
        [|exact (aligned_app _ _ _ _ _ _ (aligned_same_length x x' Hx)
                   (IH (col + List.length x)))].
      intros (-> & ->). reflexivity.
Qed.

Lemma aligned_chain {A} (F : A -> str) indent line_sep l l' :
  Forall2 (fun x x' => aligned (F x) (F x') (x = x')) l l' ->
  aligned (chain indent line_sep (map F l)) (chain indent line_sep (map F l'))
    (l = l').
Proof.
  induction 1 as [|x x' l l' Hx Hl IH].
  - simpl. split; auto.
  - cbn [map chain].
    eapply aligned_impl;
      [|exact (aligned_app _ _ _ _ _ _ (aligned_refl line_sep)
                 (aligned_app _ _ _ _ _ _ (aligned_refl indent)
                    (aligned_app _ _ _ _ _ _ Hx IH)))].
    intros (_ & _ & -> & ->). reflexivity.
Qed.

Lemma aligned_outer {A} (F : A -> str) indent axes_left l l' :
  Forall2 (fun x x' => aligned (F x) (F x') (x = x')) l l' ->
  aligned (format_outer_axis [] indent axes_left (map F l))
          (format_outer_axis [] indent axes_left (map F l')) (l = l').
Proof.
  intros H. destruct H as [|x x' l l' Hx Hl].
  - split; auto.
  - cbn [map]. rewrite !format_outer_axis_chain.
    eapply aligned_impl;
      [|exact (aligned_app _ _ _ _ _ _ (aligned_refl (lit "["))
                 (aligned_app _ _ _ _ _ _
                    (aligned_app _ _ _ _ _ _ Hx
                       (aligned_chain F indent _ l l' Hl))
                    (aligned_refl (lit "]"))))].
    intros (_ & (-> & ->) & _). reflexivity.
Qed.

(** A row printed by a function whose words, on the values at hand, are
    solid and of one length, and which tells those values apart. *)
Lemma aligned_row (ok : Z -> Prop) (f : Z -> str) (w : nat) indent width r r' :
  (forall v, ok v -> List.length (f v) = w /\ solid (f v)) ->
  (forall u v, ok u -> ok v -> f u = f v -> u = v) ->
  Forall ok r ->
  Forall ok r' ->
  List.length r = List.length r' ->
  aligned (format_last_axis [] indent width (map f r))
          (format_last_axis [] indent width (map f r')) (r = r').
Proof.
  intros Hf Hinj Hr Hr' Hlen.
  rewrite !format_last_axis_lay.
  2:{ apply Forall_map. eapply Forall_impl; [|exact Hr'].
      intros v Hv. apply (Hf v Hv). }
  2:{ apply Forall_map. eapply Forall_impl; [|exact Hr].
      intros v Hv. apply (Hf v Hv). }
  assert (Forall2 (fun x x' => List.length x = List.length x')
            (map f r) (map f r')) as H2.
  { revert r' Hr' Hlen. induction Hr as [|u r Hu Hr IH];
      intros [|v r'] Hr' Hlen; simpl in *; try discriminate; constructor.
    - inversion Hr'; subst.
      destruct (Hf u Hu) as [-> _]. destruct (Hf v) as [-> _]; auto.
    - inversion Hr'; subst. apply IH; [assumption | lia]. }
  eapply aligned_impl;
    [|exact (aligned_app _ _ _ _ _ _ (aligned_refl (lit "["))
               (aligned_app _ _ _ _ _ _
                  (aligned_lay (width - 1) indent _ _ H2 (List.length indent))
                  (aligned_refl (lit "]"))))].
  intros (_ & Hm & _). clear H2.
  revert r' Hr' Hlen Hm. induction Hr as [|u r Hu Hr IH];
    intros [|v r'] Hr' Hlen Hm; simpl in *; try discriminate; [reflexivity|].
  inversion Hr'; subst. injection Hm as Huv Hm.
  f_equal; [apply Hinj; assumption | apply IH; [assumption | lia | exact Hm]].
Qed.

(** ** The whole array, printed in full *)

Lemma shown_all {A} (l : list A) : shown false l = map Some l.
Proof. reflexivity. Qed.

Lemma render_all {A} (F : A -> str) (l : list A) :
  map (render F) (shown false l) = map F l.
Proof. rewrite shown_all, map_map. reflexivity. Qed.

Lemma formatArray_full a f line_width prefix :
  formatArray a f line_width prefix [] false
  = format_outer_axis [] prefix 3
      (map (fun plane =>
              format_outer_axis [] (prefix ++ lit " ") 2
                (map (fun row =>
                        format_last_axis [] ((prefix ++ lit " ") ++ lit " ")
                          (line_width - 2) (map f row))
                     plane))
           a).
Proof.
  unfold formatArray. cbv zeta. rewrite render_all.
  f_equal. apply map_ext. intros plane. rewrite render_all.
  f_equal. apply map_ext. intros row. rewrite render_all. reflexivity.
Qed.

Lemma Forall2_pair {A} (P Q : A -> Prop) l l' :
  List.length l = List.length l' ->
  Forall P l -> Forall Q l' -> Forall2 (fun x y => P x /\ Q y) l l'.
Proof.
  intros Hlen Hl. revert l' Hlen. induction Hl as [|x l Hx Hl IH];
    intros [|y l'] Hlen Hl'; simpl in *; try discriminate; constructor.
  - inversion Hl'; subst. auto.
  - inversion Hl'; subst. apply IH; [lia | assumption].
Qed.

(** Two arrays of one shape, printed in full by one function. *)
Lemma aligned_array (ok : Z -> Prop) (f : Z -> str) (w : nat) line_width prefix
    h wd c a b :
  (forall v, ok v -> List.length (f v) = w /\ solid (f v)) ->
  (forall u v, ok u -> ok v -> f u = f v -> u = v) ->
  has_shape h wd c a -> has_shape h wd c b ->
  Forall (Forall (Forall ok)) a -> Forall (Forall (Forall ok)) b ->
  aligned (formatArray a f line_width prefix [] false)
          (formatArray b f line_width prefix [] false) (a = b).
Proof.
  intros Hf Hinj [Ha Hsa] [Hb Hsb] Hoa Hob.
  rewrite !formatArray_full.
  apply aligned_outer.
  pose proof (Forall2_pair _ _ a b (eq_trans Ha (eq_sym Hb))
                (Forall_and Hsa Hoa) (Forall_and Hsb Hob)) as H2.
  eapply Forall2_impl; [|exact H2].
  intros p p' [[[Hp Hcp] Hop] [[Hp' Hcp'] Hop']].
  apply aligned_outer.
  pose proof (Forall2_pair _ _ p p' (eq_trans Hp (eq_sym Hp'))
                (Forall_and Hcp Hop) (Forall_and Hcp' Hop')) as H3.
  eapply Forall2_impl; [|exact H3].
  intros r r' [[Hr Hor] [Hr' Hor']].
  apply (aligned_row ok f w); auto. congruence.
Qed.

(** ** The width of the words, read off the first row *)

Lemma count_other_app x y : count_other (x ++ y) = count_other x + count_other y.
Proof. unfold count_other. rewrite filter_app, length_app. reflexivity. Qed.

Lemma count_breaks_app x y :
  count_breaks (x ++ y) = count_breaks x + count_breaks y.
Proof. unfold count_breaks. rewrite filter_app, length_app. reflexivity. Qed.

Lemma count_no_break x :
  Forall (fun c => c <> newline) x ->
  count_other x = List.length x /\ count_breaks x = 0.
Proof.
  unfold count_other, count_breaks.
  induction 1 as [|c x Hc Hx [IH1 IH2]]; [auto|]. simpl.
  apply Ascii.eqb_neq in Hc. rewrite Hc. simpl. auto.
Qed.

Lemma plain_no_break x : Forall plain x -> Forall (fun c => c <> newline) x.
Proof. apply Forall_impl. intros c [_ H]. exact H. Qed.

Lemma plain_no_bracket x : Forall plain x -> Forall (fun c => c <> "]"%char) x.
Proof. apply Forall_impl. intros c [H _]. exact H. Qed.

Lemma lay_count ew indent ws :
  Forall (fun c => c <> newline) indent ->
  Forall (Forall plain) ws ->
  forall col,
    count_other (lay ew indent col ws)
    = List.length indent * count_breaks (lay ew indent col ws)
      + List.length (concat ws).
Proof.
  intros Hind. induction 1 as [|x ws Hx Hws IH]; intros col.
  - unfold count_other, count_breaks. simpl. lia.
  - destruct (count_no_break x (plain_no_break x Hx)) as [Hx1 Hx2].
    destruct (count_no_break indent Hind) as [Hi1 Hi2].
    cbn [lay concat]. rewrite length_app.
    destruct ((ew <? col + List.length x) && negb (col <=? List.length indent)).
    + change (newline :: indent ++ x ++ lay ew indent (List.length indent + List.length x) ws)
        with ([newline] ++ indent ++ x
              ++ lay ew indent (List.length indent + List.length x) ws).
      rewrite !count_other_app, !count_breaks_app, IH, Hx1, Hx2, Hi1, Hi2.
      change (count_other [newline]) with 0.
      change (count_breaks [newline]) with 1. lia.
    + rewrite !count_other_app, !count_breaks_app, IH, Hx1, Hx2. lia.
Qed.

Lemma lay_no_bracket ew indent ws :
  Forall (fun c => c <> "]"%char) indent ->
  Forall (Forall plain) ws ->
  forall col, Forall (fun c => c <> "]"%char) (lay ew indent col ws).
Proof.
  intros Hind. induction 1 as [|x ws Hx Hws IH]; intros col.
  - constructor.
  - cbn [lay].
    destruct ((ew <? col + List.length x) && negb (col <=? List.length indent)).
    + constructor; [discriminate|].
      apply Forall_app. split; [exact Hind|].
      apply Forall_app. split; [apply plain_no_bracket, Hx | apply IH].
    + apply Forall_app. split; [apply plain_no_bracket, Hx | apply IH].
Qed.

Lemma before_bracket_app x rest :
  Forall (fun c => c <> "]"%char) x ->
  before_bracket (x ++ "]"%char :: rest) = x.
Proof.
  induction 1 as [|c x Hc Hx IH]; simpl.
  - reflexivity.
  - apply Ascii.eqb_neq in Hc. rewrite Hc, IH. reflexivity.
Qed.

Lemma length_concat_words (f : Z -> str) (ok : Z -> Prop) w r :
  (forall v, ok v -> List.length (f v) = w) ->
  Forall ok r ->
  List.length (concat (map f r)) = List.length r * w.
Proof.
  intros Hf. induction 1 as [|v r Hv Hr IH]; simpl; [reflexivity|].
  rewrite length_app, IH, (Hf v Hv). reflexivity.
Qed.

(** The text of an array printed in full opens with its first row. *)
Lemma text_first_row f line_width r1 plane1 a1 :
  Forall solid (map f r1) ->
  exists rest,
    formatArray ((r1 :: plane1) :: a1) f line_width (lit " ") [] false
    = (lit "[[[" ++ lay (line_width - 2 - 1) (lit "   ") 3 (map f r1))
      ++ "]"%char :: rest.
Proof.
  intros Hs. rewrite formatArray_full. cbn [map].
  rewrite !format_outer_axis_chain.
  rewrite (format_last_axis_lay _ _ _ Hs).
  change ((lit " " ++ lit " ") ++ lit " ") with (lit "   ").
  change (List.length (lit "   ")) with 3.
  eexists. cbn [lit list_ascii_of_string app].
  repeat rewrite <- app_assoc. cbn [app]. reflexivity.
Qed.

(** Equal texts of arrays whose first rows have as many samples are
    printed with words of one length. *)
Lemma width_of_text (oka okb : Z -> Prop) (f g : Z -> str) (w w' : nat)
    line_width r1 plane1 a1 r1' plane1' b1 :
  (forall v, oka v -> List.length (f v) = w /\ solid (f v) /\ Forall plain (f v)) ->
  (forall v, okb v -> List.length (g v) = w' /\ solid (g v) /\ Forall plain (g v)) ->
  Forall oka r1 -> Forall okb r1' ->
  List.length r1 = List.length r1' -> r1 <> [] ->
  formatArray ((r1 :: plane1) :: a1) f line_width (lit " ") [] false
  = formatArray ((r1' :: plane1') :: b1) g line_width (lit " ") [] false ->
  w = w'.
Proof.
  intros Hf Hg Hr Hr' Hlen Hne Heq.
  assert (Forall solid (map f r1)) as Hsf.
  { apply Forall_map. eapply Forall_impl; [|exact Hr]. intros v Hv. apply (Hf v Hv). }
  assert (Forall solid (map g r1')) as Hsg.
  { apply Forall_map. eapply Forall_impl; [|exact Hr']. intros v Hv. apply (Hg v Hv). }
  assert (Forall (Forall plain) (map f r1)) as Hpf.
  { apply Forall_map. eapply Forall_impl; [|exact Hr]. intros v Hv. apply (Hf v Hv). }
  assert (Forall (Forall plain) (map g r1')) as Hpg.
  { apply Forall_map. eapply Forall_impl; [|exact Hr']. intros v Hv. apply (Hg v Hv). }
  destruct (text_first_row f line_width r1 plane1 a1 Hsf) as (ra & Ha).
  destruct (text_first_row g line_width r1' plane1' b1 Hsg) as (rb & Hb).
  rewrite Ha, Hb in Heq. apply (f_equal before_bracket) in Heq.
  assert (Forall (fun c => c <> "]"%char) (lit "   ")) as Hind
    by (repeat constructor; discriminate).
  assert (Forall (fun c => c <> newline) (lit "   ")) as Hind'
    by (repeat constructor; discriminate).
  rewrite !before_bracket_app in Heq.
  2:{ apply Forall_app. split; [repeat constructor; discriminate|].
      apply lay_no_bracket; assumption. }
  2:{ apply Forall_app. split; [repeat constructor; discriminate|].
      apply lay_no_bracket; assumption. }
  apply app_inv_head in Heq.
  pose proof (lay_count (line_width - 2 - 1) (lit "   ") _ Hind' Hpf 3) as Ca.
  pose proof (lay_count (line_width - 2 - 1) (lit "   ") _ Hind' Hpg 3) as Cb.
  rewrite Heq in Ca. rewrite Ca in Cb.
  rewrite (length_concat_words f oka w r1) in Cb; [|intros v Hv; apply (Hf v Hv) | exact Hr].
  rewrite (length_concat_words g okb w' r1') in Cb; [|intros v Hv; apply (Hg v Hv) | exact Hr'].
  destruct r1 as [|v r1]; [congruence|]. simpl in Hlen. rewrite <- Hlen in Cb.
  simpl in Cb. nia.
Qed.

End Layout.
(** * What the text of an array keeps of it *)

Section Text.

(** ** The printer on small arrays *)

Example img_to_string_2x2x3 :
  img_to_string [[[1; 2; 3]; [4; 5; 6]]; [[7; 8; 9]; [10; 11; 12]]]%Z
  = lit "[[[ 1 2 3]
  [ 4 5 6]]

 [[ 7 8 9]
  [101112]]]".
Proof. vm_compute. reflexivity. Qed.

(** A row too long for the line is continued on the next one. *)
Example img_to_string_wrapped :
  img_to_string [[repeat 255%Z 30]]
  = lit "[[[255255255255255255255255255255255255255255255255255255255255255255255
   255255255255255255255]]]".
Proof. vm_compute. reflexivity. Qed.

Example img_to_string_empty : img_to_string (crop_frame (flat_frame 50 50 1)) = lit "[]".
Proof. vm_compute. reflexivity. Qed.

(** ** Shapes and sizes *)

Lemma has_shapeb_spec h wd c a : has_shapeb h wd c a = true -> has_shape h wd c a.
Proof.
  unfold has_shapeb, has_shape. intros H.
  apply andb_prop in H. destruct H as [H1 H2].
  apply Nat.eqb_eq in H1. split; [exact H1|].
  rewrite forallb_forall in H2. apply Forall_forall. intros p Hp.
  specialize (H2 p Hp). apply andb_prop in H2. destruct H2 as [H2 H3].
  apply Nat.eqb_eq in H2. split; [exact H2|].
  rewrite forallb_forall in H3. apply Forall_forall. intros px Hpx.
  apply Nat.eqb_eq, H3, Hpx.
Qed.

Lemma uint8b_spec a : uint8b a = true -> uint8 a.
Proof.
  unfold uint8b, uint8. intros H.
  rewrite forallb_forall in H. apply Forall_forall. intros p Hp.
  specialize (H p Hp). rewrite forallb_forall in H.
  apply Forall_forall. intros r Hr. specialize (H r Hr).
  rewrite forallb_forall in H. apply Forall_forall. intros v Hv.
  specialize (H v Hv). apply andb_prop in H. destruct H as [H1 H2].
  apply Z.leb_le in H1. apply Z.ltb_lt in H2. lia.
Qed.

Lemma length_concat_uniform {A} (n : nat) (l : list (list A)) :
  Forall (fun x => List.length x = n) l ->
  List.length (concat l) = List.length l * n.
Proof.
  induction 1 as [|x l Hx Hl IH]; simpl; [reflexivity|].
  rewrite length_app, IH, Hx. reflexivity.
Qed.

Lemma Forall_concat {A} (P : A -> Prop) (l : list (list A)) :
  Forall (Forall P) l -> Forall P (concat l).
Proof.
  induction 1 as [|x l Hx Hl IH]; simpl; [constructor|].
  apply Forall_app. auto.
Qed.

Lemma size_shape h wd c a : has_shape h wd c a -> size a = h * wd * c.
Proof.
  intros [Hh Hs]. unfold size, samples.
  rewrite (length_concat_uniform c).
  - rewrite (length_concat_uniform wd), Hh; [reflexivity|].
    eapply Forall_impl; [|exact Hs]. intros p [Hp _]. exact Hp.
  - apply Forall_concat. eapply Forall_impl; [|exact Hs].
    intros p [_ Hp]. exact Hp.
Qed.

Lemma all_equal_repeat {A} (d : A) (l : list A) :
  Forall (fun x => x = d) l -> l = repeat d (List.length l).
Proof. induction 1 as [|x l -> Hl IH]; simpl; [reflexivity | congruence]. Qed.

Lemma length_zero_nil {A} (l : list A) : List.length l = 0 -> l = [].
Proof. destruct l; [reflexivity | discriminate]. Qed.

(** An array without samples is fixed by its shape. *)
Lemma empty_shape h wd c a :
  has_shape h wd c a -> h * wd * c = 0 ->
  a = repeat (repeat (repeat 0%Z c) wd) h.
Proof.
  intros [Hh Hs] Hz. rewrite <- Hh. apply all_equal_repeat.
  apply Forall_forall. intros p Hin. rewrite Forall_forall in Hs.
  destruct (Hs p Hin) as [Hp Hpx].
  rewrite <- Hp. apply all_equal_repeat.
  apply Forall_forall. intros px Hpin. rewrite Forall_forall in Hpx.
  specialize (Hpx px Hpin).
  assert (0 < h) by (destruct a; [destruct Hin | simpl in Hh; lia]).
  assert (0 < wd) by (destruct p; [destruct Hpin | simpl in Hp; lia]).
  assert (c = 0) as Hc by nia. rewrite Hc in *.
  apply length_zero_nil, Hpx.
Qed.

Lemma in_samples a p r v : In p a -> In r p -> In v r -> In v (samples a).
Proof.
  intros Hp Hr Hv. unfold samples.
  apply in_concat. exists r. split; [|exact Hv].
  apply in_concat. exists p. auto.
Qed.

(** ** Arrays of at most 1000 samples *)

Lemma fits_array a : uint8 a -> Forall (Forall (Forall (fits (format_width (samples a))))) a.
Proof.
  intros Hu. unfold uint8 in Hu.
  assert (Forall (fun v => (0 <= v < 256)%Z) (samples a)) as Hb.
  { unfold samples. apply Forall_concat, Forall_concat. exact Hu. }
  rewrite Forall_forall in Hu. apply Forall_forall. intros p Hp.
  pose proof (Hu p Hp) as Hup. rewrite Forall_forall in Hup.
  apply Forall_forall. intros r Hr.
  pose proof (Hup r Hr) as Hur. rewrite Forall_forall in Hur.
  apply Forall_forall. intros v Hv. split; [apply Hur, Hv|].
  apply digits_le_width; [exact Hb|]. eapply in_samples; eassumption.
Qed.

Lemma fits_word w v :
  fits w v ->
  List.length (Py.rjust w (Py.str_of_int v)) = w
  /\ solid (Py.rjust w (Py.str_of_int v))
  /\ Forall plain (Py.rjust w (Py.str_of_int v)).
Proof.
  intros [Hv Hd]. split; [|split].
  - unfold Py.rjust. destruct (word_facts v Hv) as (Hl & _).
    rewrite length_app, repeat_length, Hl. lia.
  - apply (solid_word w v Hv).
  - apply (plain_word w v Hv).
Qed.

Lemma fits_inj w u v :
  fits w u -> fits w v ->
  Py.rjust w (Py.str_of_int u) = Py.rjust w (Py.str_of_int v) -> u = v.
Proof.
  intros [Hu _] [Hv _] H. exact (word_inj w w u v Hu Hv H).
Qed.

(** Regions of one shape and at most 1000 bytes with one text are one
    region. *)
Lemma text_inj h wd c a b :
  has_shape h wd c a -> has_shape h wd c b ->
  uint8 a -> uint8 b ->
  size a <= threshold ->
  img_to_string a = img_to_string b -> a = b.
Proof.
  intros Ha Hb Hua Hub Hsz Heq.
  pose proof (size_shape _ _ _ _ Ha) as Sa.
  pose proof (size_shape _ _ _ _ Hb) as Sb.
  destruct (Nat.eq_dec (h * wd * c) 0) as [Hz | Hnz].
  { rewrite (empty_shape _ _ _ _ Ha Hz), (empty_shape _ _ _ _ Hb Hz). reflexivity. }
  unfold img_to_string, array2string in Heq.
  assert ((size a =? 0) = false) as Za by (apply Nat.eqb_neq; lia).
  assert ((size b =? 0) = false) as Zb by (apply Nat.eqb_neq; lia).
  assert ((threshold <? size a) = false) as Ta by (apply Nat.ltb_ge; lia).
  assert ((threshold <? size b) = false) as Tb by (apply Nat.ltb_ge; lia).
  rewrite Za, Zb in Heq. cbv zeta in Heq. rewrite Ta, Tb in Heq.
  unfold IntegerFormat in Heq.
  pose proof (fits_array a Hua) as Fa. pose proof (fits_array b Hub) as Fb.
  set (wa := format_width (samples a)) in *.
  set (wb := format_width (samples b)) in *.
  assert (wa = wb) as Hw.
  { destruct Ha as [Hh Hsa], Hb as [Hh' Hsb].
    assert (0 < h /\ 0 < wd /\ 0 < c) as (Hh0 & Hw0 & Hc0).
    { destruct h, wd, c; simpl in Hnz; try lia; rewrite ?Nat.mul_0_r in Hnz; lia. }
    destruct a as [|p a1]; [simpl in Hh; lia|].
    destruct b as [|p' b1]; [simpl in Hh'; lia|].
    apply Forall_inv in Hsa, Hsb, Fa, Fb.
    destruct Hsa as [Hp Hcp], Hsb as [Hp' Hcp'].
    destruct p as [|r1 p1]; [simpl in Hp; lia|].
    destruct p' as [|r1' p1']; [simpl in Hp'; lia|].
    apply Forall_inv in Hcp, Hcp', Fa, Fb.
    apply (width_of_text (fits wa) (fits wb) _ _ wa wb linewidth
             r1 p1 a1 r1' p1' b1 (fits_word wa) (fits_word wb) Fa Fb);
      [congruence | | exact Heq].
    intros ->. simpl in Hcp. lia. }
  rewrite <- Hw in Heq, Fb.
  destruct (aligned_array (fits wa)
              (fun x => Py.rjust wa (Py.str_of_int x)) wa linewidth (lit " ")
              h wd c a b (fun v Hv => conj (proj1 (fits_word wa v Hv))
                                       (proj1 (proj2 (fits_word wa v Hv))))
              (fits_inj wa) Ha Hb Fa Fb) as [_ H].
  exact (H Heq).
Qed.

End Text.
(** * One sample changed *)

Section Perturb.

(** ** Replacing an item of a list *)

Lemma set_nth_nil {A} n (x : A) : set_nth n x [] = [].
Proof. unfold set_nth. destruct n; reflexivity. Qed.

Lemma set_nth_0 {A} (x y : A) l : set_nth 0 x (y :: l) = x :: l.
Proof. reflexivity. Qed.

Lemma set_nth_S {A} n (x y : A) l : set_nth (S n) x (y :: l) = y :: set_nth n x l.
Proof. reflexivity. Qed.

Lemma length_set_nth {A} n (x : A) l : List.length (set_nth n x l) = List.length l.
Proof.
  revert n. induction l as [|y l IH]; intros n.
  - rewrite set_nth_nil. reflexivity.
  - destruct n; [reflexivity|]. rewrite set_nth_S. simpl. rewrite IH. reflexivity.
Qed.

Lemma Forall_set_nth {A} (P : A -> Prop) n x l :
  P x -> Forall P l -> Forall P (set_nth n x l).
Proof.
  intros Hx Hl. revert n. induction Hl as [|y l Hy Hl IH]; intros n.
  - rewrite set_nth_nil. constructor.
  - destruct n; [rewrite set_nth_0 | rewrite set_nth_S]; constructor; auto.
Qed.

Lemma nth_set_nth {A} n (x d : A) l :
  n < List.length l -> nth n (set_nth n x l) d = x.
Proof.
  revert n. induction l as [|y l IH]; intros n Hn; simpl in Hn; [lia|].
  destruct n; [reflexivity|]. rewrite set_nth_S. simpl. apply IH. lia.
Qed.

Lemma set_nth_same {A} n (d : A) l :
  n < List.length l -> set_nth n (nth n l d) l = l.
Proof.
  revert n. induction l as [|y l IH]; intros n Hn; simpl in Hn; [lia|].
  destruct n; [reflexivity|]. rewrite set_nth_S. simpl. rewrite IH by lia.
  reflexivity.
Qed.

Lemma set_nth_map {A B} (g : A -> B) n x l :
  map g (set_nth n x l) = set_nth n (g x) (map g l).
Proof.
  revert n. induction l as [|y l IH]; intros n.
  - rewrite set_nth_nil. simpl. rewrite set_nth_nil. reflexivity.
  - destruct n; [reflexivity|]. cbn [map]. rewrite !set_nth_S. cbn [map].
    rewrite IH. reflexivity.
Qed.

Lemma firstn_set_nth {A} m n (x : A) l :
  m <= n -> firstn m (set_nth n x l) = firstn m l.
Proof.
  revert m n. induction l as [|y l IH]; intros m n Hmn.
  - rewrite set_nth_nil. reflexivity.
  - destruct n.
    + assert (m = 0) as -> by lia. reflexivity.
    + rewrite set_nth_S. destruct m; [reflexivity|]. simpl.
      rewrite IH by lia. reflexivity.
Qed.

Lemma skipn_set_nth {A} m n (x : A) l :
  n < m -> skipn m (set_nth n x l) = skipn m l.
Proof.
  revert m n. induction l as [|y l IH]; intros m n Hmn.
  - rewrite set_nth_nil. reflexivity.
  - destruct m; [lia|]. destruct n; [reflexivity|].
    rewrite set_nth_S. simpl. apply IH. lia.
Qed.

(** ** What the summary leaves out *)

Lemma edges_set_nth {A} n (x : A) l :
  interior n (List.length l) -> edges (set_nth n x l) = edges l.
Proof.
  unfold interior, edges. intros [H1 H2].
  rewrite length_set_nth.
  destruct (2 * edgeitems <? List.length l) eqn:E.
  - rewrite firstn_set_nth by exact H1.
    rewrite skipn_set_nth by lia. reflexivity.
  - apply Nat.ltb_ge in E. unfold edgeitems in *. lia.
Qed.

Lemma edges_map {A B} (g : A -> B) l : edges (map g l) = map g (edges l).
Proof.
  unfold edges. rewrite length_map.
  destruct (2 * edgeitems <? List.length l); [|reflexivity].
  rewrite map_app, firstn_map, skipn_map. reflexivity.
Qed.

Lemma Forall_edges {A} (P : A -> Prop) l : Forall P l -> Forall P (edges l).
Proof.
  intros H. unfold edges. destruct (2 * edgeitems <? List.length l); [|exact H].
  apply Forall_app. split.
  - apply (Forall_firstn_skipn P edgeitems l H).
  - apply (Forall_firstn_skipn P (List.length l - edgeitems) l H).
Qed.

(** ** The perturbed array *)

Lemma nth_In_shape h wd c a i :
  has_shape h wd c a -> i < h ->
  List.length (nth i a []) = wd
  /\ Forall (fun px => List.length px = c) (nth i a []).
Proof.
  intros [Hh Hs] Hi. rewrite Forall_forall in Hs. apply Hs.
  apply nth_In. lia.
Qed.

Lemma nth_In_row (c : nat) (plane : list (list Z)) j :
  Forall (fun px => List.length px = c) plane -> j < List.length plane ->
  List.length (nth j plane []) = c.
Proof.
  intros Hp Hj. rewrite Forall_forall in Hp. apply Hp. apply nth_In. exact Hj.
Qed.

Lemma perturb_shape h wd c a i j k v :
  has_shape h wd c a -> i < h -> j < wd ->
  has_shape h wd c (perturb a i j k v).
Proof.
  intros Ha Hi Hj. destruct (nth_In_shape _ _ _ _ i Ha Hi) as [Hp Hpx].
  destruct Ha as [Hh Hs]. unfold perturb. split.
  - rewrite length_set_nth. exact Hh.
  - apply Forall_set_nth; [|exact Hs]. split.
    + rewrite length_set_nth. exact Hp.
    + apply Forall_set_nth; [|exact Hpx].
      rewrite length_set_nth. apply (nth_In_row c); [exact Hpx | lia].
Qed.

Lemma perturb_uint8 a i j k v :
  uint8 a -> (0 <= v < 256)%Z -> uint8 (perturb a i j k v).
Proof.
  intros Ha Hv. unfold uint8, perturb in *.
  assert (forall (P : list Z -> Prop) (l : list (list Z)) n,
            Forall P l -> P [] -> P (nth n l [])) as Hnth.
  { intros P l n Hl Hd. destruct (nth_in_or_default n l []) as [H | ->]; [|exact Hd].
    rewrite Forall_forall in Hl. auto. }
  assert (Forall (Forall (fun v => (0 <= v < 256)%Z)) (nth i a [])) as Hp.
  { destruct (nth_in_or_default i a []) as [H | ->]; [|constructor].
    rewrite Forall_forall in Ha. auto. }
  apply Forall_set_nth; [|exact Ha].
  apply Forall_set_nth; [|exact Hp].
  apply Forall_set_nth; [exact Hv|].
  apply Hnth; [exact Hp | constructor].
Qed.

Lemma perturb_sample h wd c a i j k v :
  has_shape h wd c a -> i < h -> j < wd -> k < c ->
  sample (perturb a i j k v) i j k = v.
Proof.
  intros Ha Hi Hj Hk. destruct (nth_In_shape _ _ _ _ i Ha Hi) as [Hp Hpx].
  destruct Ha as [Hh Hs]. unfold sample, perturb.
  rewrite nth_set_nth by lia. rewrite nth_set_nth by lia.
  apply nth_set_nth. rewrite (nth_In_row c); [exact Hk | exact Hpx | lia].
Qed.

(** A sample replaced where the summary does not look leaves the
    leading and trailing parts as they were. *)
Lemma perturb_edges h wd c a i j k v :
  has_shape h wd c a -> i < h -> j < wd -> k < c ->
  interior i h \/ interior j wd \/ interior k c ->
  leading_trailing (perturb a i j k v) = leading_trailing a.
Proof.
  intros Ha Hi Hj Hk Hint.
  destruct (nth_In_shape _ _ _ _ i Ha Hi) as [Hp Hpx].
  pose proof (nth_In_row c _ j Hpx ltac:(lia)) as Hr.
  destruct Ha as [Hh Hs]. unfold leading_trailing, perturb.
  set (E1 := fun plane : list (list Z) => edges (map edges plane)).
  rewrite (set_nth_map E1).
  destruct Hint as [Hii | Hint].
  { apply edges_set_nth. rewrite length_map, Hh. exact Hii. }
  assert (E1 (set_nth j (set_nth k v (nth j (nth i a []) [])) (nth i a []))
          = E1 (nth i a [])) as HE.
  { unfold E1. rewrite (set_nth_map edges).
    destruct Hint as [Hjj | Hkk].
    - apply edges_set_nth. rewrite length_map, Hp. exact Hjj.
    - rewrite (edges_set_nth k v) by (rewrite Hr; exact Hkk).
      change (edges (nth j (nth i a []) []))
        with (edges (nth j (nth i a []) (@nil Z))).
      replace (edges (nth j (nth i a []) []))
        with (nth j (map edges (nth i a [])) (edges [])).
      + rewrite set_nth_same by (rewrite length_map; lia). reflexivity.
      + apply (map_nth edges). }
  rewrite HE.
  replace (E1 (nth i a [])) with (nth i (map E1 a) (E1 [])) by apply (map_nth E1).
  rewrite set_nth_same by (rewrite length_map; lia). reflexivity.
Qed.

End Perturb.
(** * The text of an array of more than 1000 samples *)

Section Summary.

Lemma split_at_length {A} n (x y : list A) :
  List.length x = n -> firstn n (x ++ y) = x /\ skipn n (x ++ y) = y.
Proof.
  intros <-. split; [apply firstn_length_app | apply skipn_length_app].
Qed.

(** The items visited along an axis are those [_leading_trailing] keeps. *)
Lemma shown_mark {A} (l : list A) : shown true l = mark (List.length l) (edges l).
Proof.
  unfold shown, mark, edges. cbn [andb].
  destruct (2 * edgeitems <? List.length l) eqn:E; [|reflexivity].
  apply Nat.ltb_lt in E.
  destruct (split_at_length edgeitems (firstn edgeitems l)
              (skipn (List.length l - edgeitems) l)) as [-> ->];
    [|reflexivity].
  rewrite length_firstn. unfold edgeitems in *. lia.
Qed.

Lemma render_mark_eq {A} (F : A -> str) n e e' :
  map F e = map F e' ->
  map (render F) (mark n e) = map (render F) (mark n e').
Proof.
  intros H. unfold mark.
  assert (forall l, map (render F) (map Some l) = map F l) as Hm.
  { intros l. rewrite map_map. reflexivity. }
  destruct (2 * edgeitems <? n).
  - rewrite !map_app, !Hm, <- !firstn_map, <- !skipn_map, H. reflexivity.
  - rewrite !Hm. exact H.
Qed.

Lemma map_eq_transfer {A B C} (g : A -> B) (F : A -> C) (P : A -> Prop) e e' :
  (forall x y, P x -> P y -> g x = g y -> F x = F y) ->
  Forall P e -> Forall P e' ->
  map g e = map g e' -> map F e = map F e'.
Proof.
  intros HF He. revert e'. induction He as [|x e Hx He IH];
    intros [|y e'] He' H; simpl in *; try discriminate; [reflexivity|].
  inversion He'; subst. injection H as Hxy H.
  f_equal; [apply HF; assumption | apply IH; assumption].
Qed.

(** Two arrays of one shape and more than 1000 samples with the same
    leading and trailing parts have the same text. *)
Lemma text_of_edges h wd c a b :
  has_shape h wd c a -> has_shape h wd c b ->
  threshold < size a ->
  leading_trailing a = leading_trailing b ->
  img_to_string a = img_to_string b.
Proof.
  intros Ha Hb Hsz Hlt.
  pose proof (size_shape _ _ _ _ Ha) as Sa.
  pose proof (size_shape _ _ _ _ Hb) as Sb.
  unfold img_to_string, array2string.
  assert ((size a =? 0) = false) as Za by (apply Nat.eqb_neq; unfold threshold in *; lia).
  assert ((size b =? 0) = false) as Zb by (apply Nat.eqb_neq; unfold threshold in *; lia).
  assert ((threshold <? size a) = true) as Ta by (apply Nat.ltb_lt; lia).
  assert ((threshold <? size b) = true) as Tb by (apply Nat.ltb_lt; lia).
  rewrite Za, Zb. cbv zeta. rewrite Ta, Tb, <- Hlt.
  set (f := IntegerFormat (samples (leading_trailing a))).
  unfold formatArray. cbv zeta. f_equal.
  destruct Ha as [Hh Hsa], Hb as [Hh' Hsb].
  rewrite !shown_mark, Hh, Hh'.
  apply render_mark_eq.
  unfold leading_trailing in Hlt. rewrite !edges_map in Hlt.
  refine (map_eq_transfer _ _ _ _ _ _ (Forall_edges _ _ Hsa)
            (Forall_edges _ _ Hsb) Hlt).
  intros p p' [Hp Hcp] [Hp' Hcp'] Hpp. f_equal.
  rewrite !shown_mark, Hp, Hp'.
  apply render_mark_eq.
  rewrite !edges_map in Hpp.
  refine (map_eq_transfer _ _ _ _ _ _ (Forall_edges _ _ Hcp)
            (Forall_edges _ _ Hcp') Hpp).
  intros r r' Hr Hr' Hrr. cbv beta in *. f_equal.
  rewrite !shown_mark, Hr, Hr', Hrr. reflexivity.
Qed.

End Summary.
(** * Equal digests *)

Section Collisions.

Lemma hex_check_all : uint8_all hex_check = true.
Proof. vm_compute. reflexivity. Qed.

Lemma hex_inj x y :
  Forall Whirlpool.byte x -> Forall Whirlpool.byte y ->
  Whirlpool.hex x = Whirlpool.hex y -> x = y.
Proof.
  intros Hx. revert y. induction Hx as [|b x Hb Hx IH];
    intros [|b' y] Hy H; simpl in H; try discriminate; [reflexivity|].
  inversion Hy as [|? ? Hb' Hy']; subst. injection H as H1 H2 H.
  pose proof (uint8_all_spec _ hex_check_all b Hb) as Cb.
  pose proof (uint8_all_spec _ hex_check_all b' Hb') as Cb'.
  unfold hex_check in Cb, Cb'. apply Z.eqb_eq in Cb, Cb'.
  rewrite H1, H2, Cb' in Cb. subst b'.
  f_equal. apply IH; assumption.
Qed.

Lemma utf8_check_all : uint8_all utf8_check = true.
Proof. vm_compute. reflexivity. Qed.

Lemma code_inj c c' : code c = code c' -> c = c'.
Proof.
  unfold code. intros H. apply Nat2Z.inj in H.
  rewrite <- (ascii_nat_embedding c), <- (ascii_nat_embedding c'), H.
  reflexivity.
Qed.

Lemma utf8_head_encode c rest :
  utf8_head (Py.encode_char c ++ rest) = Some (code c, rest).
Proof.
  pose proof (uint8_all_spec _ utf8_check_all (code c) (byte_code c)) as H.
  unfold utf8_check, code in H. rewrite Nat2Z.id, ascii_nat_embedding in H.
  unfold utf8_head in *.
  destruct (Py.encode_char c) as [|x [|y [|z r]]]; try discriminate.
  - cbn [app]. destruct (x <? 128)%Z; [|discriminate].
    apply Z.eqb_eq in H. subst x. reflexivity.
  - cbn [app]. destruct (x <? 128)%Z; [discriminate|].
    apply Z.eqb_eq in H. unfold code. rewrite H. reflexivity.
  - destruct (x <? 128)%Z; discriminate.
Qed.

Lemma encode_utf8_inj s t : Py.encode_utf8 s = Py.encode_utf8 t -> s = t.
Proof.
  revert t. induction s as [|c s IH]; intros [|c' t] H; [reflexivity| | |].
  - apply (f_equal utf8_head) in H. unfold Py.encode_utf8 in H.
    cbn [flat_map] in H. rewrite utf8_head_encode in H. discriminate.
  - apply (f_equal utf8_head) in H. unfold Py.encode_utf8 in H.
    cbn [flat_map] in H. rewrite utf8_head_encode in H. discriminate.
  - apply (f_equal utf8_head) in H. unfold Py.encode_utf8 in H.
    cbn [flat_map] in H. rewrite !utf8_head_encode in H.
    injection H as Hc Hr. apply code_inj in Hc. subst c'.
    f_equal. apply IH. exact Hr.
Qed.

(** Two texts with one digest are one text, or the hash collides on
    their bytes. *)
Lemma hash_eq_collision s t :
  s <> t -> hash s = hash t ->
  collision (Py.encode_utf8 s) (Py.encode_utf8 t).
Proof.
  intros Hne H. split.
  - intros He. apply Hne, encode_utf8_inj, He.
  - unfold hash, Whirlpool.hexdigest in H.
    destruct (block_digest _ (bytes_encode_utf8 s)) as [_ Hs].
    destruct (block_digest _ (bytes_encode_utf8 t)) as [_ Ht].
    apply hex_inj; assumption.
Qed.

End Collisions.
(** * Regions and their digests *)

Section Regions.

Lemma region_shapes :
  has_shape 20 20 3 region_a /\ has_shape 20 20 3 region_b
  /\ uint8 region_a /\ uint8 region_b.
Proof.
  split; [|split; [|split]];
    first [ apply has_shapeb_spec; vm_compute; reflexivity
          | apply uint8b_spec; vm_compute; reflexivity ].
Qed.

(** The two regions of 1200 samples are printed alike: the changed sample
    is under the summary marks. *)
Lemma regions_same_text : img_to_string region_a = img_to_string region_b.
Proof. vm_compute. reflexivity. Qed.

(** C3: the text of a region of at most 1000 bytes keeps every sample in
    its place: two such regions of one shape that differ have different
    texts. *)
Theorem small_regions_have_distinct_texts :
  forall h wd c a b,
    has_shape h wd c a -> has_shape h wd c b ->
    uint8 a -> uint8 b ->
    size a <= threshold ->
    a <> b ->
    img_to_string a <> img_to_string b.
Proof.
  intros h wd c a b Ha Hb Hua Hub Hsz Hne Heq.
  apply Hne. exact (text_inj h wd c a b Ha Hb Hua Hub Hsz Heq).
Qed.

Lemma small_regions_have_distinct_texts_witness :
  img_to_string [[[1; 2; 3]; [40; 50; 60]]]%Z
  <> img_to_string [[[1; 2; 3]; [40; 50; 61]]]%Z.
Proof.
  apply (small_regions_have_distinct_texts 1 2 3
           [[[1; 2; 3]; [40; 50; 60]]]%Z [[[1; 2; 3]; [40; 50; 61]]]%Z).
  - apply has_shapeb_spec. vm_compute. reflexivity.
  - apply has_shapeb_spec. vm_compute. reflexivity.
  - apply uint8b_spec. vm_compute. reflexivity.
  - apply uint8b_spec. vm_compute. reflexivity.
  - vm_compute. lia.
  - discriminate.
Defined.

(** Two regions of one shape that differ in a sample and have one text. *)
Lemma large_regions_share_a_text :
  has_shape 20 20 3 region_a /\ has_shape 20 20 3 region_b
  /\ uint8 region_a /\ uint8 region_b
  /\ sample region_a 10 10 1 = 5%Z /\ sample region_b 10 10 1 = 200%Z
  /\ region_a <> region_b
  /\ img_to_string region_a = img_to_string region_b.
Proof.
  destruct region_shapes as (H1 & H2 & H3 & H4).
  split; [exact H1|]. split; [exact H2|]. split; [exact H3|].
  split; [exact H4|]. split; [reflexivity|]. split; [reflexivity|]. split.
  - intros H. apply (f_equal (fun a => sample a 10 10 1)) in H.
    vm_compute in H. discriminate H.
  - apply regions_same_text.
Qed.

(** C4: replacing one sample of a region of at most 1000 bytes changes
    the text that is hashed, so the digests differ unless Whirlpool
    collides on the two texts; replacing a sample of a larger region
    where the summary does not look leaves the digest as it was. *)
Theorem single_sample_perturbation :
  forall h wd c a i j k v,
    has_shape h wd c a -> uint8 a ->
    i < h -> j < wd -> k < c ->
    (0 <= v < 256)%Z -> v <> sample a i j k ->
    (size a <= threshold ->
       img_to_string (perturb a i j k v) <> img_to_string a
       /\ (hash (img_to_string (perturb a i j k v)) = hash (img_to_string a) ->
           collision (Py.encode_utf8 (img_to_string (perturb a i j k v)))
                     (Py.encode_utf8 (img_to_string a))))
    /\ (threshold < size a ->
        interior i h \/ interior j wd \/ interior k c ->
        hash (img_to_string (perturb a i j k v)) = hash (img_to_string a)).
Proof.
  intros h wd c a i j k v Ha Hua Hi Hj Hk Hv Hne.
  pose proof (perturb_shape h wd c a i j k v Ha Hi Hj) as Hb.
  pose proof (perturb_uint8 a i j k v Hua Hv) as Hub.
  split.
  - intros Hsz.
    assert (img_to_string (perturb a i j k v) <> img_to_string a) as Htext.
    { intros Heq. apply Hne.
      rewrite <- (perturb_sample h wd c a i j k v Ha Hi Hj Hk).
      rewrite (text_inj h wd c _ a Hb Ha Hub Hua); [reflexivity | | exact Heq].
      rewrite (size_shape _ _ _ _ Hb), <- (size_shape _ _ _ _ Ha). exact Hsz. }
    split; [exact Htext|]. apply hash_eq_collision, Htext.
  - intros Hsz Hint. f_equal.
    apply (text_of_edges h wd c); [exact Hb | exact Ha | |].
    + rewrite (size_shape _ _ _ _ Hb), <- (size_shape _ _ _ _ Ha). exact Hsz.
    + apply (perturb_edges h wd c); assumption.
Qed.

Lemma single_sample_perturbation_witness :
  (img_to_string (perturb [[[1; 2; 3]; [40; 50; 60]]]%Z 0 1 2 61)
   <> img_to_string [[[1; 2; 3]; [40; 50; 60]]]%Z
   /\ (hash (img_to_string (perturb [[[1; 2; 3]; [40; 50; 60]]]%Z 0 1 2 61))
       = hash (img_to_string [[[1; 2; 3]; [40; 50; 60]]]%Z) ->
       collision
         (Py.encode_utf8
            (img_to_string (perturb [[[1; 2; 3]; [40; 50; 60]]]%Z 0 1 2 61)))
         (Py.encode_utf8 (img_to_string [[[1; 2; 3]; [40; 50; 60]]]%Z))))
  /\ hash (img_to_string (perturb region_a 10 10 1 200))
     = hash (img_to_string region_a).
Proof.
  split.
  - apply (single_sample_perturbation 1 2 3 [[[1; 2; 3]; [40; 50; 60]]]%Z
             0 1 2 61).
    + apply has_shapeb_spec. vm_compute. reflexivity.
    + apply uint8b_spec. vm_compute. reflexivity.
    + lia.
    + lia.
    + lia.
    + lia.
    + vm_compute. discriminate.
    + vm_compute. lia.
  - apply (single_sample_perturbation 20 20 3 region_a 10 10 1 200).
    + apply has_shapeb_spec. vm_compute. reflexivity.
    + apply uint8b_spec. vm_compute. reflexivity.
    + lia.
    + lia.
    + lia.
    + lia.
    + vm_compute. discriminate.
    + vm_compute. lia.
    + left. unfold interior, edgeitems. lia.
Defined.

(** One sample of a region changed and the digest is the same. *)
Lemma perturbed_region_keeps_digest :
  region_b = perturb region_a 10 10 1 200
  /\ sample region_a 10 10 1 <> sample region_b 10 10 1
  /\ hash (img_to_string region_b) = hash (img_to_string region_a).
Proof.
  split; [reflexivity|]. split.
  - vm_compute. discriminate.
  - rewrite regions_same_text. reflexivity.
Qed.

End Regions.

(** * Runs of [main] on any camera *)

Section Runs.

(** ** The loop from a suspended generator *)

(** A run from the generator suspended on [cur]: the frames [fs] it goes
    on to read are those of the script, their digests are printed in that
    order, the images shown are crops of [cur] and of the frames read, one
    behind the digests, and the handle is never released. *)
Lemma main_loop_running cv2 fuel :
  forall cur w acc,
    Cv2.is_open w = true ->
    exists (fs : list ndarray) (m : nat),
      printed_by (main_loop fuel cv2 (Suspended true (Some cur)) w acc)
        = acc ++ map digest_of fs
      /\ (forall k f, nth_error fs k = Some f ->
                      Cv2.script w (Cv2.reads w + k) = Some f)
      /\ Cv2.script (world_after (main_loop fuel cv2 (Suspended true (Some cur)) w acc))
         = Cv2.script w
      /\ Cv2.released (world_after (main_loop fuel cv2 (Suspended true (Some cur)) w acc))
         = Cv2.released w
      /\ Cv2.opened (world_after (main_loop fuel cv2 (Suspended true (Some cur)) w acc))
         = Cv2.opened w
      /\ Cv2.reads w + List.length fs
         <= Cv2.reads (world_after (main_loop fuel cv2 (Suspended true (Some cur)) w acc))
      /\ Cv2.reads (world_after (main_loop fuel cv2 (Suspended true (Some cur)) w acc))
         <= Cv2.reads w + List.length fs + 1
      /\ List.length fs <= m <= List.length fs + 1
      /\ Cv2.displayed (world_after (main_loop fuel cv2 (Suspended true (Some cur)) w acc))
         = Cv2.displayed w ++ map crop_frame (firstn m (cur :: fs)).
Proof.
  induction fuel as [|fuel IH]; intros cur w acc Ho.
  - exists [], 0. cbn. rewrite !app_nil_r. repeat split; try lia.
    intros k f H. destruct k; discriminate.
  - cbn [main_loop next]. unfold loop.
    destruct (negb (Cv2.hasattr cv2 "imshow")) eqn:Hattr.
    { exists [], 0. cbn. rewrite !app_nil_r. repeat split; try lia.
      intros k f H. destruct k; discriminate. }
    unfold Cv2.imshow.
    destruct (size (crop_frame cur) =? 0) eqn:Hsz.
    { exists [], 0. cbn. rewrite !app_nil_r. repeat split; try lia.
      intros k f H. destruct k; discriminate. }
    unfold Cv2.read. cbn [Cv2.is_open Cv2.script Cv2.reads]. rewrite Ho.
    destruct (Cv2.script w (Cv2.reads w)) as [img|] eqn:Hr.
    + match goal with
      | |- context [main_loop fuel cv2 (Suspended true (Some img)) ?w2 ?acc2] =>
          destruct (IH img w2 acc2 eq_refl)
            as (fs & m & Hp & Hs & Hsc & Hrel & Hop & Hlo & Hhi & Hm & Hd)
      end.
      cbn [Cv2.script Cv2.reads Cv2.released Cv2.opened Cv2.displayed] in *.
      exists (img :: fs), (S m). cbn [List.length map firstn].
      split; [rewrite Hp, <- app_assoc; reflexivity|].
      split.
      { intros k f H. destruct k as [|k].
        - cbn in H. injection H as <-. rewrite Nat.add_0_r. exact Hr.
        - cbn in H. replace (Cv2.reads w + S k) with (S (Cv2.reads w) + k) by lia.
          apply Hs, H. }
      repeat split; try assumption; try lia.
      rewrite Hd, <- app_assoc. reflexivity.
    + exists [], 1. cbn. rewrite !app_nil_r. repeat split; try lia.
      intros k f H. destruct k; discriminate.
Qed.

(** ** From the first statement *)

(** The four ways [main] gets under way: an attribute is missing, the
    device is absent, the first read fails, or the loop is entered. *)
Lemma main_start_cases cv2 fuel w :
  main (S fuel) cv2 w = ([], Some AttributeError, Finished, w)
  \/ (Cv2.device_present w = false
      /\ main (S fuel) cv2 w
         = ([], Some (SystemExit (-1)), Finished, Cv2.VideoCapture w))
  \/ (Cv2.script w (Cv2.reads w) = None
      /\ exists e, main (S fuel) cv2 w
                   = ([], Some e, Finished, Cv2.release (primed w)))
  \/ (exists f0,
        Cv2.script w (Cv2.reads w) = Some f0
        /\ main (S fuel) cv2 w
           = main_loop (S fuel) cv2 (Suspended true (Some f0)) (primed w) []).
Proof.
  unfold main, generate_secure_hash. cbn [main_loop next]. unfold start.
  destruct (negb (Cv2.hasattr cv2 "namedWindows")); [left; reflexivity|].
  destruct (negb (Cv2.hasattr cv2 "VideoCapture")); [left; reflexivity|].
  unfold Cv2.VideoCapture, Cv2.isOpened, Cv2.read.
  destruct (Cv2.device_present w) eqn:Hd; cbn.
  - destruct (Cv2.script w (Cv2.reads w)) as [f0|] eqn:Hr.
    + right. right. right. exists f0. split; reflexivity.
    + right. right. left. split; [reflexivity|]. unfold loop.
      destruct (Cv2.hasattr cv2 "destroyAllWindows"); eexists; reflexivity.
  - right. left. split; reflexivity.
Qed.

Lemma nth_error_map_inv {A B} (g : A -> B) l k y :
  nth_error (map g l) k = Some y -> exists x, nth_error l k = Some x /\ y = g x.
Proof.
  rewrite nth_error_map. destruct (nth_error l k) as [x|]; [|discriminate].
  intros H. injection H as <-. eauto.
Qed.

(** X1: whatever the camera and the module, the [k]-th line [main] prints
    is the digest of the frame of the [k]-th read after the first one. *)
Theorem main_prints_digests_of_later_frames :
  forall fuel cv2 w k d,
    nth_error (printed_by (main fuel cv2 w)) k = Some d ->
    exists f,
      Cv2.script w (Cv2.reads w + 1 + k) = Some f /\ d = digest_of f.
Proof.
  intros fuel cv2 w k d H.
  destruct fuel as [|fuel]; [destruct k; discriminate|].
  destruct (main_start_cases cv2 fuel w)
    as [E | [[_ E] | [[_ [e E]] | [f0 [Hr E]]]]];
    rewrite E in H; try (destruct k; discriminate).
  destruct (main_loop_running cv2 (S fuel) f0 (primed w) [] eq_refl)
    as (fs & m & Hp & Hs & _).
  rewrite Hp in H. cbn [app] in H.
  destruct (nth_error_map_inv _ _ _ _ H) as (f & Hf & ->).
  exists f. split; [|reflexivity].
  specialize (Hs k f Hf). unfold primed in Hs. cbn [Cv2.script Cv2.reads] in Hs.
  replace (Cv2.reads w + 1 + k) with (S (Cv2.reads w) + k) by lia. exact Hs.
Qed.

(** X2: [main] reads one frame before the loop and one per digest, and at
    most one more, the failed read that ends it: it never holds more than
    one frame that it has not digested. *)
Theorem main_reads_one_frame_ahead :
  forall fuel cv2 w,
    Cv2.reads (world_after (main fuel cv2 w))
      <= Cv2.reads w + List.length (printed_by (main fuel cv2 w)) + 2
    /\ (printed_by (main fuel cv2 w) = []
        \/ Cv2.reads w + List.length (printed_by (main fuel cv2 w)) + 1
             <= Cv2.reads (world_after (main fuel cv2 w))).
Proof.
  intros fuel cv2 w.
  destruct fuel as [|fuel]; [cbn; split; [lia | left; reflexivity]|].
  destruct (main_start_cases cv2 fuel w)
    as [E | [[Hd E] | [[_ [e E]] | [f0 [Hr E]]]]]; rewrite E.
  - cbn. split; [lia | left; reflexivity].
  - unfold Cv2.VideoCapture. rewrite Hd. cbn. split; [lia | left; reflexivity].
  - cbn. split; [lia | left; reflexivity].
  - destruct (main_loop_running cv2 (S fuel) f0 (primed w) [] eq_refl)
      as (fs & m & Hp & _ & _ & _ & _ & Hlo & Hhi & _).
    rewrite Hp. unfold primed in *. cbn [app Cv2.reads] in *.
    rewrite length_map. split; [lia | right; lia].
Qed.

(** X3: once [main] has printed a digest the script never releases the
    handle it opened. *)
Theorem no_release_after_a_digest :
  forall fuel cv2 w,
    printed_by (main fuel cv2 w) <> [] ->
    Cv2.released (world_after (main fuel cv2 w)) = Cv2.released w
    /\ Cv2.opened (world_after (main fuel cv2 w)) = S (Cv2.opened w).
Proof.
  intros fuel cv2 w H.
  destruct fuel as [|fuel]; [cbn in H; congruence|].
  destruct (main_start_cases cv2 fuel w)
    as [E | [[_ E] | [[_ [e E]] | [f0 [Hr E]]]]];
    rewrite E in *; try (cbn in H; congruence).
  destruct (main_loop_running cv2 (S fuel) f0 (primed w) [] eq_refl)
    as (fs & m & _ & _ & _ & Hrel & Hop & _).
  unfold primed in *. cbn [Cv2.released Cv2.opened] in *. auto.
Qed.

(** X4: the [k]-th image shown is the crop of the frame of the [k]-th
    read, one read behind the digest printed in the same turn, and as
    many images are shown as digests are printed, or one more. *)
Theorem preview_lags_one_frame :
  forall fuel cv2 w k img,
    nth_error (Cv2.displayed (world_after (main fuel cv2 w)))
              (List.length (Cv2.displayed w) + k) = Some img ->
    (exists f, Cv2.script w (Cv2.reads w + k) = Some f /\ img = crop_frame f)
    /\ List.length (Cv2.displayed w) + List.length (printed_by (main fuel cv2 w))
       <= List.length (Cv2.displayed (world_after (main fuel cv2 w)))
    /\ List.length (Cv2.displayed (world_after (main fuel cv2 w)))
       <= List.length (Cv2.displayed w)
          + List.length (printed_by (main fuel cv2 w)) + 1.
Proof.
  intros fuel cv2 w k img H.
  assert (forall (l : list ndarray) j, nth_error l (List.length l + j) = None) as Hnone.
  { intros l j. apply nth_error_None. lia. }
  destruct fuel as [|fuel]; [cbn in H; rewrite Hnone in H; discriminate|].
  destruct (main_start_cases cv2 fuel w)
    as [E | [[Hd E] | [[_ [e E]] | [f0 [Hr E]]]]]; rewrite E in *.
  - cbn in H. rewrite Hnone in H. discriminate.
  - unfold Cv2.VideoCapture in H. rewrite Hd in H. cbn in H.
    rewrite Hnone in H. discriminate.
  - cbn in H. rewrite Hnone in H. discriminate.
  - destruct (main_loop_running cv2 (S fuel) f0 (primed w) [] eq_refl)
      as (fs & m & Hp & Hs & _ & _ & _ & _ & _ & Hm & Hdisp).
    unfold primed in *. cbn [Cv2.displayed Cv2.script Cv2.reads app] in *.
    rewrite Hdisp in *. rewrite Hp, length_app, !length_map, length_firstn.
    cbn [List.length]. split; [|lia].
    rewrite nth_error_app2 in H by lia.
    replace (List.length (Cv2.displayed w) + k - List.length (Cv2.displayed w))
      with k in H by lia.
    destruct (nth_error_map_inv _ _ _ _ H) as (f & Hf & ->).
    exists f. split; [|reflexivity].
    rewrite nth_error_firstn in Hf. destruct (k <? m); [|discriminate].
    destruct k as [|k].
    + cbn in Hf. injection Hf as <-. rewrite Nat.add_0_r. exact Hr.
    + cbn in Hf. replace (Cv2.reads w + S k) with (S (Cv2.reads w) + k) by lia.
      apply Hs, Hf.
Qed.

Lemma main_prints_digests_of_later_frames_witness :
  exists f,
    Cv2.script (camera [frame0; frame1]) (Cv2.reads (camera [frame0; frame1]) + 1 + 0)
      = Some f
    /\ hash (img_to_string frame1) = digest_of f.
Proof.
  apply (main_prints_digests_of_later_frames 1 patched (camera [frame0; frame1])
           0 (hash (img_to_string frame1))).
  vm_compute. reflexivity.
Defined.

Lemma no_release_after_a_digest_witness :
  Cv2.released (world_after (main 3 patched (camera [frame0; frame1])))
    = Cv2.released (camera [frame0; frame1])
  /\ Cv2.opened (world_after (main 3 patched (camera [frame0; frame1])))
     = S (Cv2.opened (camera [frame0; frame1])).
Proof.
  apply (no_release_after_a_digest 3 patched (camera [frame0; frame1])).
  vm_compute. discriminate.
Defined.

Lemma preview_lags_one_frame_witness :
  (exists f,
     Cv2.script (camera [frame0; frame1; frame2])
       (Cv2.reads (camera [frame0; frame1; frame2]) + 1) = Some f
     /\ crop_frame frame1 = crop_frame f)
  /\ List.length (Cv2.displayed (camera [frame0; frame1; frame2]))
       + List.length (printed_by (main 2 patched (camera [frame0; frame1; frame2])))
     <= List.length (Cv2.displayed
                       (world_after (main 2 patched (camera [frame0; frame1; frame2]))))
  /\ List.length (Cv2.displayed
                    (world_after (main 2 patched (camera [frame0; frame1; frame2]))))
     <= List.length (Cv2.displayed (camera [frame0; frame1; frame2]))
        + List.length (printed_by (main 2 patched (camera [frame0; frame1; frame2])))
        + 1.
Proof.
  apply (preview_lags_one_frame 2 patched (camera [frame0; frame1; frame2])
           1 (crop_frame frame1)).
  vm_compute. reflexivity.
Defined.

(** ** What is printed *)

Lemma hash_shape s :
  List.length (hash s) = 128 /\ Forall Whirlpool.lower_hex (hash s).
Proof.
  unfold hash, Whirlpool.hexdigest. split; [|apply lower_hex_hex].
  rewrite length_hex.
  destruct (block_digest _ (bytes_encode_utf8 s)) as [-> _]. reflexivity.
Qed.

Lemma next_yields_a_hash cv2 g w res g' w' :
  next cv2 g w = (Yield res, g', w') -> exists s, res = hash s.
Proof.
  assert (forall works frame w0,
            loop cv2 works frame w0 = (Yield res, g', w') -> exists s, res = hash s)
    as Hloop.
  { intros works frame w0. unfold loop.
    destruct works; [|destruct (Cv2.hasattr cv2 "destroyAllWindows"); discriminate].
    destruct frame as [img|]; [|discriminate].
    destruct (negb (Cv2.hasattr cv2 "imshow")); [discriminate|].
    destruct (Cv2.imshow (crop_frame img) w0) as [w1|]; [|discriminate].
    destruct (Cv2.read w1) as [[wk fr] w2].
    destruct fr as [img'|]; [|discriminate].
    intros H. injection H as <- _ _. eauto. }
  destruct g as [|works frame|]; cbn [next].
  - unfold start.
    destruct (negb (Cv2.hasattr cv2 "namedWindows")); [discriminate|].
    destruct (negb (Cv2.hasattr cv2 "VideoCapture")); [discriminate|].
    destruct (negb (Cv2.isOpened (Cv2.VideoCapture w))); [discriminate|].
    destruct (Cv2.read (Cv2.VideoCapture w)) as [[works frame] w2].
    apply Hloop.
  - apply Hloop.
  - discriminate.
Qed.

Lemma main_loop_prints (P : str -> Prop) cv2 :
  (forall s, P (hash s)) ->
  forall fuel g w acc,
    Forall P acc -> Forall P (printed_by (main_loop fuel cv2 g w acc)).
Proof.
  intros HP. induction fuel as [|fuel IH]; intros g w acc Hacc; [exact Hacc|].
  cbn [main_loop]. destruct (next cv2 g w) as [[o g'] w'] eqn:Hn.
  destruct o as [res|e]; [|exact Hacc].
  apply IH. apply Forall_app. split; [exact Hacc|].
  destruct (next_yields_a_hash _ _ _ _ _ _ Hn) as (s & ->).
  constructor; [apply HP | constructor].
Qed.

(** X5: every line [main] prints, on any camera and for any length of
    run, is a string of 128 lowercase hexadecimal characters. *)
Theorem main_prints_hex_lines :
  forall fuel cv2 w,
    Forall (fun line => List.length line = 128
                        /\ Forall Whirlpool.lower_hex line)
           (printed_by (main fuel cv2 w)).
Proof.
  intros fuel cv2 w. unfold main.
  apply main_loop_prints; [apply hash_shape | constructor].
Qed.

(** ** Runs that end before the first digest *)

(** X6: when the device cannot be opened [main] ends with [exit(-1)]
    before anything is read, shown, printed or released. *)
Theorem absent_device_exits :
  forall fuel cv2 w,
    Cv2.hasattr cv2 "namedWindows" = true ->
    Cv2.hasattr cv2 "VideoCapture" = true ->
    Cv2.device_present w = false ->
    main (S fuel) cv2 w
    = ([], Some (SystemExit (-1)), Finished,
       Cv2.mkWorld false (Cv2.script w) (Cv2.reads w) false (Cv2.opened w)
         (Cv2.released w) (Cv2.displayed w)).
Proof.
  intros fuel cv2 w Hn Hv Hd.
  unfold main, generate_secure_hash. cbn [main_loop next].
  unfold start, Cv2.VideoCapture, Cv2.isOpened. rewrite Hn, Hv, Hd. reflexivity.
Qed.

Lemma absent_device_exits_witness :
  main 4 patched (Cv2.mkWorld false (fun _ => Some frame0) 0 false 0 0 [])
  = ([], Some (SystemExit (-1)), Finished,
     Cv2.mkWorld false (fun _ => Some frame0) 0 false 0 0 []).
Proof.
  apply (absent_device_exits 3 patched
           (Cv2.mkWorld false (fun _ => Some frame0) 0 false 0 0 []));
    reflexivity.
Defined.

(** X7: when the first read fails the generator leaves its loop at once:
    the handle is released, and [main] ends on the [StopIteration] that
    [next] raises, having printed nothing. *)
Theorem first_read_failure_stops_main :
  forall fuel cv2 w,
    provides cv2 ->
    Cv2.device_present w = true ->
    Cv2.script w (Cv2.reads w) = None ->
    main (S fuel) cv2 w
    = ([], Some StopIteration, Finished,
       Cv2.mkWorld true (Cv2.script w) (S (Cv2.reads w)) false
         (S (Cv2.opened w)) (S (Cv2.released w)) (Cv2.displayed w)).
Proof.
  intros fuel cv2 w (Hn & Hv & _ & Hdw) Hd Hr.
  unfold main, generate_secure_hash. cbn [main_loop next].
  unfold start, Cv2.VideoCapture, Cv2.isOpened, Cv2.read.
  rewrite Hn, Hv, Hd. cbn. rewrite Hr. unfold loop. rewrite Hdw. reflexivity.
Qed.

Lemma first_read_failure_stops_main_witness :
  main 2 patched (camera [])
  = ([], Some StopIteration, Finished,
     Cv2.mkWorld true (Cv2.script (camera [])) (S (Cv2.reads (camera []))) false
       (S (Cv2.opened (camera []))) (S (Cv2.released (camera [])))
       (Cv2.displayed (camera []))).
Proof.
  apply (first_read_failure_stops_main 1 patched (camera [])).
  - repeat split.
  - reflexivity.
  - reflexivity.
Defined.

End Runs.

(** * How a run that entered the loop ends *)

Section Ends.

Lemma main_loop_running_end cv2 fuel :
  forall cur w acc,
    Cv2.is_open w = true ->
    ended_by (main_loop fuel cv2 (Suspended true (Some cur)) w acc) = None
    \/ ended_by (main_loop fuel cv2 (Suspended true (Some cur)) w acc)
       = Some AttributeError
    \/ ended_by (main_loop fuel cv2 (Suspended true (Some cur)) w acc)
       = Some Cv2Error.
Proof.
  induction fuel as [|fuel IH]; intros cur w acc Ho; [left; reflexivity|].
  cbn [main_loop next]. unfold loop.
  destruct (negb (Cv2.hasattr cv2 "imshow")); [right; left; reflexivity|].
  unfold Cv2.imshow.
  destruct (size (crop_frame cur) =? 0); [right; right; reflexivity|].
  unfold Cv2.read. cbn [Cv2.is_open Cv2.script Cv2.reads]. rewrite Ho.
  destruct (Cv2.script w (Cv2.reads w)) as [img|].
  - apply IH. reflexivity.
  - right. left. reflexivity.
Qed.

(** X13: a run of [main] that printed a digest does not end through the
    loop test: if it ends, it ends on the [AttributeError] of a failed
    read passed to [img_to_string] (or of a missing [imshow]) or on the
    error of the preview, never on [StopIteration]. *)
Theorem digests_then_no_clean_end :
  forall fuel cv2 w e,
    printed_by (main fuel cv2 w) <> [] ->
    ended_by (main fuel cv2 w) = Some e ->
    e = AttributeError \/ e = Cv2Error.
Proof.
  intros fuel cv2 w e Hp He.
  destruct fuel as [|fuel]; [cbn in Hp; congruence|].
  destruct (main_start_cases cv2 fuel w)
    as [E | [[_ E] | [[_ [e' E]] | [f0 [Hr E]]]]];
    rewrite E in *; try (cbn in Hp; congruence).
  destruct (main_loop_running_end cv2 (S fuel) f0 (primed w) [] eq_refl)
    as [H | [H | H]]; rewrite H in He; [discriminate | |];
    injection He as <-; auto.
Qed.

Lemma digests_then_no_clean_end_witness :
  AttributeError = AttributeError \/ AttributeError = Cv2Error.
Proof.
  apply (digests_then_no_clean_end 3 patched (camera [frame0; frame1])
           AttributeError).
  - vm_compute. discriminate.
  - vm_compute. reflexivity.
Defined.

End Ends.

(** * Crops, texts and digests beyond the claims *)

Section MoreText.

(** ** Arrays without samples *)

Lemma shown_cons {A} summary (x : A) l :
  exists tail, shown summary (x :: l) = Some x :: tail.
Proof.
  unfold shown.
  destruct (summary && (2 * edgeitems <? List.length (x :: l)));
    cbn [edgeitems firstn map app]; eauto.
Qed.

(** The text of an array is ["[]"] exactly when the array has no sample. *)
Lemma text_empty_iff a : img_to_string a = lit "[]" <-> size a = 0.
Proof.
  unfold img_to_string, array2string. split.
  - destruct (size a =? 0) eqn:E; [intros _; apply Nat.eqb_eq, E|].
    cbv zeta. intros H. exfalso.
    destruct a as [|p a1]; [discriminate E|].
    unfold formatArray in H. cbv zeta in H.
    destruct (shown_cons (threshold <? size (p :: a1)) p a1) as (tail & Hsh).
    rewrite Hsh in H.
    cbn [map render] in H. rewrite format_outer_axis_chain in H.
    unfold format_outer_axis in H. cbv zeta in H.
    cbn [lit list_ascii_of_string app] in H. discriminate H.
  - intros H. apply Nat.eqb_eq in H. rewrite H. reflexivity.
Qed.

Lemma crop_frame_size h wd c a :
  has_shape h wd c a ->
  size (crop_frame a) = (Nat.min h 900 - 100) * (Nat.min wd 350 - 200) * c.
Proof. intros H. apply size_shape, crop_frame_shape, H. Qed.

Lemma crop_text_small h wd c a :
  has_shape h wd c a ->
  img_to_string (crop_frame a) = lit "[]"
  <-> h <= 100 \/ wd <= 200 \/ c = 0.
Proof.
  intros Ha. rewrite text_empty_iff, (crop_frame_size h wd c a Ha).
  split.
  - intros H. apply Nat.eq_mul_0 in H. destruct H as [H | H]; [|auto].
    apply Nat.eq_mul_0 in H. lia.
  - intros [H | [H | H]].
    + replace (Nat.min h 900 - 100) with 0 by lia. reflexivity.
    + replace (Nat.min wd 350 - 200) with 0 by lia. lia.
    + subst c. lia.
Qed.

(** X8: the crop of a frame prints as ["[]"] exactly when the frame has at
    most 100 rows, at most 200 columns or no channel: every such frame
    gives the same text, whatever its pixels. *)
Theorem crop_text_is_empty_iff_frame_is_small :
  forall h wd c a,
    has_shape h wd c a ->
    img_to_string (crop_frame a) = lit "[]"
    <-> h <= 100 \/ wd <= 200 \/ c = 0.
Proof.
  intros h wd c a Ha. exact (crop_text_small h wd c a Ha).
Qed.

Lemma crop_text_is_empty_iff_frame_is_small_witness :
  img_to_string (crop_frame (flat_frame 100 640 9)) = lit "[]"
  <-> 100 <= 100 \/ 640 <= 200 \/ 3 = 0.
Proof.
  apply (crop_text_is_empty_iff_frame_is_small 100 640 3 (flat_frame 100 640 9)).
  apply has_shapeb_spec. vm_compute. reflexivity.
Defined.


(** ** The part of a large array that reaches the digest *)

Lemma length_edges_le {A} (l : list A) : List.length (edges l) <= 2 * edgeitems.
Proof.
  unfold edges. destruct (2 * edgeitems <? List.length l) eqn:E.
  - apply Nat.ltb_lt in E. rewrite length_app, length_firstn, length_skipn.
    unfold edgeitems in *. lia.
  - apply Nat.ltb_ge in E. exact E.
Qed.

Lemma length_concat_le {A} (n : nat) (l : list (list A)) :
  Forall (fun x => List.length x <= n) l ->
  List.length (concat l) <= List.length l * n.
Proof.
  induction 1 as [|x l Hx Hl IH]; simpl; [lia|].
  rewrite length_app. lia.
Qed.

Lemma size_leading_trailing a : size (leading_trailing a) <= 216.
Proof.
  unfold size, samples, leading_trailing.
  set (b := edges (map (fun plane => edges (map edges plane)) a)).
  assert (List.length b <= 6) as Hb by apply length_edges_le.
  assert (Forall (fun plane : list (list Z) =>
                    List.length plane <= 6
                    /\ Forall (fun row => List.length row <= 6) plane) b) as Hp.
  { apply Forall_edges, Forall_map, Forall_forall. intros plane _. split.
    - apply length_edges_le.
    - apply Forall_edges, Forall_map, Forall_forall. intros row _.
      apply length_edges_le. }
  assert (List.length (concat b) <= 36) as Hc.
  { pose proof (length_concat_le 6 b) as H.
    assert (Forall (fun x : list (list Z) => List.length x <= 6) b) as H6
      by (eapply Forall_impl; [|exact Hp]; intros p [H1 _]; exact H1).
    specialize (H H6). lia. }
  pose proof (length_concat_le 6 (concat b)) as H.
  assert (Forall (fun x : list Z => List.length x <= 6) (concat b)) as H6.
  { apply Forall_concat. eapply Forall_impl; [|exact Hp].
    intros p [_ H2]. exact H2. }
  specialize (H H6). lia.
Qed.

(** X10: the digest of an array of more than 1000 samples is fixed by the
    shape of the array and by its leading and trailing parts, which hold
    at most 216 samples: two such arrays that agree there have one
    digest, however many other samples differ. *)
Theorem large_array_digest_reads_216_samples :
  forall h wd c a b,
    has_shape h wd c a -> has_shape h wd c b ->
    threshold < size a ->
    leading_trailing a = leading_trailing b ->
    digest_of a = digest_of b
    /\ size (leading_trailing a) <= 216.
Proof.
  intros h wd c a b Ha Hb Hsz Hlt. split; [|apply size_leading_trailing].
  unfold digest_of. f_equal. exact (text_of_edges h wd c a b Ha Hb Hsz Hlt).
Qed.

Lemma large_array_digest_reads_216_samples_witness :
  digest_of (flat_frame 20 20 5)
  = digest_of (perturb (perturb (flat_frame 20 20 5) 9 9 0 77) 10 10 1 200)
  /\ size (leading_trailing (flat_frame 20 20 5)) <= 216.
Proof.
  apply (large_array_digest_reads_216_samples 20 20 3).
  - apply has_shapeb_spec. vm_compute. reflexivity.
  - apply has_shapeb_spec. vm_compute. reflexivity.
  - vm_compute. lia.
  - vm_compute. reflexivity.
Defined.

(** ** The hash *)



(** ** Frames too small for the rectangle *)

(** X12: when the first frame has at most 100 rows, at most 200 columns or
    no channel, its crop has no pixel, the preview rejects it and [main]
    ends on that error: nothing is printed, no second frame is read and
    the handle stays open, not released. *)
Theorem small_first_frame_stops_main :
  forall fuel cv2 w h wd c f0,
    Cv2.hasattr cv2 "namedWindows" = true ->
    Cv2.hasattr cv2 "VideoCapture" = true ->
    Cv2.hasattr cv2 "imshow" = true ->
    Cv2.device_present w = true ->
    Cv2.script w (Cv2.reads w) = Some f0 ->
    has_shape h wd c f0 ->
    h <= 100 \/ wd <= 200 \/ c = 0 ->
    main (S fuel) cv2 w = ([], Some Cv2Error, Finished, primed w).
Proof.
  intros fuel cv2 w h wd c f0 Hn Hv Hi Hd Hr Hs Hsmall.
  assert (size (crop_frame f0) = 0) as Hz.
  { apply text_empty_iff.
    apply (proj2 (crop_text_small h wd c f0 Hs)). exact Hsmall. }
  unfold main, generate_secure_hash. cbn [main_loop next].
  rewrite (start_enters_loop cv2 w f0 Hn Hv Hd Hr).
  unfold loop. rewrite Hi. cbn [negb]. unfold Cv2.imshow.
  apply Nat.eqb_eq in Hz. rewrite Hz. reflexivity.
Qed.

Lemma small_first_frame_stops_main_witness :
  main 3 patched (camera [flat_frame 480 200 9; frame1])
  = ([], Some Cv2Error, Finished,
     primed (camera [flat_frame 480 200 9; frame1])).
Proof.
  apply (small_first_frame_stops_main 2 patched
           (camera [flat_frame 480 200 9; frame1]) 480 200 3
           (flat_frame 480 200 9)).
  - reflexivity.
  - reflexivity.
  - reflexivity.
  - reflexivity.
  - reflexivity.
  - apply has_shapeb_spec. vm_compute. reflexivity.
  - lia.
Defined.

End MoreText.

(** * The alphabet of the text *)

Section Alphabet.

Variable P : ascii -> Prop.
Hypothesis P_newline : P newline.
Hypothesis P_open : P "["%char.
Hypothesis P_close : P "]"%char.

Lemma Forall_lstrip s : Forall P s -> Forall P (Py.lstrip s).
Proof.
  induction 1 as [|c s Hc Hs IH]; simpl; [constructor|].
  destruct (Py.isspace c); [exact IH | constructor; assumption].
Qed.

Lemma Forall_rstrip s : Forall P s -> Forall P (Py.rstrip s).
Proof.
  intros H. unfold Py.rstrip. apply Forall_rev, Forall_lstrip, Forall_rev, H.
Qed.

Lemma Forall_extend_words ew indent words :
  Forall P indent -> Forall (Forall P) words ->
  forall s line,
    Forall P s -> Forall P line ->
    Forall P (fst (extend_words [] ew indent words s line))
    /\ Forall P (snd (extend_words [] ew indent words s line)).
Proof.
  intros Hind. induction 1 as [|x rest Hx Hrest IH]; intros s line Hs Hl.
  - simpl. auto.
  - rewrite extend_words_cons. unfold extendLine.
    destruct ((ew <? List.length line + List.length x)
              && negb (List.length line <=? List.length indent));
      cbn [fst snd]; apply IH.
    + apply Forall_app. split; [exact Hs|]. apply Forall_app.
      split; [apply Forall_rstrip, Hl | constructor; [exact P_newline | constructor]].
    + apply Forall_app. auto.
    + exact Hs.
    + apply Forall_app. auto.
Qed.

Lemma Forall_format_last_axis indent width words :
  Forall P indent -> Forall (Forall P) words ->
  Forall P (format_last_axis [] indent width words).
Proof.
  intros Hind Hw. unfold format_last_axis. cbv zeta.
  destruct (Forall_extend_words
              (width - Nat.max (List.length (Py.rstrip [])) 1) indent words
              Hind Hw [] indent (Forall_nil _) Hind) as [H1 H2].
  destruct (extend_words [] _ indent words [] indent) as [s line].
  cbn [fst snd] in *.
  apply Forall_app. split; [constructor; [exact P_open | constructor]|].
  apply Forall_app. split; [|constructor; [exact P_close | constructor]].
  apply (Forall_firstn_skipn P (List.length indent)).
  apply Forall_app. auto.
Qed.

Lemma Forall_join_items indent line_sep items :
  Forall P indent -> Forall P line_sep -> Forall (Forall P) items ->
  Forall P (join_items indent line_sep items).
Proof.
  intros Hind Hsep. induction 1 as [|x rest Hx Hrest IH]; [constructor|].
  cbn [join_items]. destruct rest as [|y rest'].
  - apply Forall_app. auto.
  - apply Forall_app. split; [exact Hind|].
    apply Forall_app. split; [exact Hx|].
    apply Forall_app. split; [exact Hsep | exact IH].
Qed.

Lemma Forall_format_outer_axis indent axes_left items :
  Forall P indent -> Forall (Forall P) items ->
  Forall P (format_outer_axis [] indent axes_left items).
Proof.
  intros Hind Hitems. unfold format_outer_axis. cbv zeta.
  apply Forall_app. split; [constructor; [exact P_open | constructor]|].
  apply Forall_app. split; [|constructor; [exact P_close | constructor]].
  apply (Forall_firstn_skipn P (List.length indent)).
  apply Forall_join_items; [exact Hind | | exact Hitems].
  cbn [Py.rstrip rev Py.lstrip app].
  apply Forall_forall. intros c Hc. apply repeat_spec in Hc. subst. exact P_newline.
Qed.

Lemma Forall_shown {A} (Q : A -> Prop) summary (l : list A) :
  Forall Q l ->
  Forall (fun o => match o with Some x => Q x | None => True end)
         (shown summary l).
Proof.
  intros H. unfold shown.
  destruct (summary && (2 * edgeitems <? List.length l)).
  - apply Forall_app. split; [apply Forall_map|].
    + apply (Forall_firstn_skipn Q edgeitems l H).
    + constructor; [exact I|]. apply Forall_map.
      apply (Forall_firstn_skipn Q (List.length l - edgeitems) l H).
  - apply Forall_map. exact H.
Qed.

Lemma Forall_rendered {A} (Q : A -> Prop) (F : A -> str) summary (l : list A) :
  Forall P summary_insert ->
  (forall x, Q x -> Forall P (F x)) ->
  Forall Q l ->
  Forall (Forall P) (map (render F) (shown summary l)).
Proof.
  intros Hdots HF Hl. apply Forall_map.
  eapply Forall_impl; [|exact (Forall_shown Q summary l Hl)].
  intros [x|] H; cbn [render]; auto.
Qed.

Lemma Forall_formatArray a f summary :
  P " "%char ->
  Forall P summary_insert ->
  Forall (Forall (Forall (fun v => Forall P (f v)))) a ->
  Forall P (formatArray a f linewidth (lit " ") [] summary).
Proof.
  intros Hsp Hdots Ha. unfold formatArray. cbv zeta.
  assert (forall n, Forall P (repeat " "%char n)) as Hrep.
  { intros n. apply Forall_forall. intros c Hc. apply repeat_spec in Hc.
    subst. exact Hsp. }
  apply Forall_format_outer_axis; [exact (Hrep 1)|].
  eapply Forall_rendered; [exact Hdots | | exact Ha].
  intros plane Hplane. apply Forall_format_outer_axis; [exact (Hrep 2)|].
  eapply Forall_rendered; [exact Hdots | | exact Hplane].
  intros row Hrow. apply Forall_format_last_axis; [exact (Hrep 3)|].
  eapply Forall_rendered; [exact Hdots | | exact Hrow].
  intros v Hv. exact Hv.
Qed.

End Alphabet.

Section Bytes.

Lemma text_char_digit c : is_digit c = true -> text_char c.
Proof.
  intros H. unfold is_digit in H. apply andb_prop in H. destruct H as [H1 H2].
  apply Nat.leb_le in H1. apply Nat.leb_le in H2.
  rewrite <- (ascii_nat_embedding c).
  assert (exists k, k < 10 /\ nat_of_ascii c = 48 + k) as (k & Hk & ->)
    by (exists (nat_of_ascii c - 48); lia).
  unfold text_char.
  do 10 (destruct k as [|k]; [cbn; tauto|]). lia.
Qed.

Lemma text_char_word w v :
  (0 <= v < 256)%Z -> Forall text_char (Py.rjust w (Py.str_of_int v)).
Proof.
  intros Hv. unfold Py.rjust. apply Forall_app. split.
  - apply Forall_forall. intros c Hc. apply repeat_spec in Hc. subst.
    unfold text_char. cbn. tauto.
  - destruct (word_facts v Hv) as (_ & Hd & _).
    rewrite forallb_forall in Hd. apply Forall_forall. intros c Hc.
    apply text_char_digit, Hd, Hc.
Qed.

Lemma text_char_code c : text_char c -> (code c < 128)%Z.
Proof.
  unfold text_char. cbn [lit list_ascii_of_string In].
  intros H.
  repeat (destruct H as [<- | H]; [vm_compute; reflexivity|]).
  destruct H.
Qed.

Lemma encode_utf8_ascii s :
  Forall text_char s -> Py.encode_utf8 s = map code s.
Proof.
  induction 1 as [|c s Hc Hs IH]; [reflexivity|].
  unfold Py.encode_utf8 in *. cbn [flat_map map]. rewrite IH.
  unfold Py.encode_char. fold (code c).
  apply text_char_code, Z.ltb_lt in Hc. rewrite Hc. reflexivity.
Qed.

(** X14: the text of an array of bytes is written in brackets, blanks,
    line breaks, dots and digits only, and the bytes that are hashed are
    the codes of these characters, one byte for each. *)
Theorem text_is_ascii :
  forall a,
    uint8 a ->
    Forall text_char (img_to_string a)
    /\ Py.encode_utf8 (img_to_string a) = map code (img_to_string a)
    /\ List.length (Py.encode_utf8 (img_to_string a))
       = List.length (img_to_string a).
Proof.
  intros a Hu.
  assert (Forall text_char (img_to_string a)) as H.
  { unfold img_to_string, array2string.
    destruct (size a =? 0).
    - unfold text_char. repeat constructor; cbn; tauto.
    - cbv zeta. apply Forall_formatArray; try (unfold text_char; cbn; tauto).
      + unfold text_char. repeat constructor; cbn; tauto.
      + unfold uint8 in Hu. eapply Forall_impl; [|exact Hu].
        intros p Hp. eapply Forall_impl; [|exact Hp].
        intros r Hr. eapply Forall_impl; [|exact Hr].
        intros v Hv. apply text_char_word, Hv. }
  split; [exact H|]. rewrite (encode_utf8_ascii _ H).
  split; [reflexivity | apply length_map].
Qed.

Lemma text_is_ascii_witness :
  Forall text_char (img_to_string [[[1; 2; 3]; [40; 50; 255]]]%Z)
  /\ Py.encode_utf8 (img_to_string [[[1; 2; 3]; [40; 50; 255]]]%Z)
     = map code (img_to_string [[[1; 2; 3]; [40; 50; 255]]]%Z)
  /\ List.length (Py.encode_utf8 (img_to_string [[[1; 2; 3]; [40; 50; 255]]]%Z))
     = List.length (img_to_string [[[1; 2; 3]; [40; 50; 255]]]%Z).
Proof.
  apply (text_is_ascii [[[1; 2; 3]; [40; 50; 255]]]%Z).
  apply uint8b_spec. vm_compute. reflexivity.
Defined.

End Bytes.

(** * What the summarised text keeps *)

Section SummaryKeeps.

(** ** Lists related item by item *)

Lemma Forall2_app_split {A} (R : A -> A -> Prop) x x' y y' :
  List.length x = List.length x' ->
  Forall2 R (x ++ y) (x' ++ y') -> Forall2 R x x' /\ Forall2 R y y'.
Proof.
  revert x'. induction x as [|a x IH]; intros [|a' x'] Hl H; simpl in *;
    try discriminate.
  - auto.
  - inversion H; subst. destruct (IH x') as [H1 H2]; [lia | assumption|].
    auto.
Qed.

Lemma Forall2_firstn_skipn {A} (R : A -> A -> Prop) n l l' :
  Forall2 R l l' -> Forall2 R (firstn n l) (firstn n l') /\ Forall2 R (skipn n l) (skipn n l').
Proof.
  intros H. revert n. induction H as [|a a' l l' Ha Hl IH]; intros n.
  - destruct n; simpl; auto.
  - destruct n; simpl; [auto|]. destruct (IH n). auto.
Qed.

Lemma Forall2_map_Some {A} (R : A -> A -> Prop) l l' :
  Forall2 (optrel R) (map Some l) (map Some l') <-> Forall2 R l l'.
Proof.
  split.
  - revert l'. induction l as [|a l IH]; intros [|a' l'] H; simpl in *;
      inversion H; subst; constructor; auto.
  - induction 1; simpl; constructor; auto.
Qed.

Lemma Forall2_mark {A} (R : A -> A -> Prop) n e e' :
  Forall2 R e e' -> Forall2 (optrel R) (mark n e) (mark n e').
Proof.
  intros H. unfold mark. destruct (2 * edgeitems <? n).
  - destruct (Forall2_firstn_skipn R edgeitems e e' H) as [H1 H2].
    apply Forall2_app; [apply Forall2_map_Some, H1|].
    constructor; [exact I | apply Forall2_map_Some, H2].
  - apply Forall2_map_Some, H.
Qed.

Lemma Forall2_mark_inv {A} (R : A -> A -> Prop) n e e' :
  List.length e = List.length e' ->
  Forall2 (optrel R) (mark n e) (mark n e') -> Forall2 R e e'.
Proof.
  intros Hl. unfold mark. destruct (2 * edgeitems <? n).
  - intros H. apply Forall2_app_split in H.
    2:{ rewrite !length_map, !length_firstn. lia. }
    destruct H as [H1 H2]. inversion H2; subst.
    rewrite <- (firstn_skipn edgeitems e), <- (firstn_skipn edgeitems e').
    apply Forall2_app; apply Forall2_map_Some; assumption.
  - apply Forall2_map_Some.
Qed.

Lemma Forall2_eq_map {A B} (g : A -> B) l l' :
  Forall2 (fun x y => g x = g y) l l' -> map g l = map g l'.
Proof. induction 1; simpl; congruence. Qed.

Lemma Forall2_of_lengths {A} (Q : A -> Prop) (Q' : A -> Prop) l l' :
  List.length l = List.length l' -> Forall Q l -> Forall Q' l' ->
  Forall2 (fun x y => Q x /\ Q' y) l l'.
Proof. apply Forall2_pair. Qed.

(** ** Texts of one length, item by item *)

Lemma aligned_chain_rel {A} (F : A -> str) (R : A -> A -> Prop) indent line_sep l l' :
  Forall2 (fun x x' => aligned (F x) (F x') (R x x')) l l' ->
  aligned (chain indent line_sep (map F l)) (chain indent line_sep (map F l'))
    (Forall2 R l l').
Proof.
  induction 1 as [|x x' l l' Hx Hl IH].
  - simpl. split; auto.
  - cbn [map chain].
    eapply aligned_impl;
      [|exact (aligned_app _ _ _ _ _ _ (aligned_refl line_sep)
                 (aligned_app _ _ _ _ _ _ (aligned_refl indent)
                    (aligned_app _ _ _ _ _ _ Hx IH)))].
    intros (_ & _ & H1 & H2). constructor; assumption.
Qed.

Lemma aligned_outer_rel {A} (F : A -> str) (R : A -> A -> Prop) indent axes_left l l' :
  Forall2 (fun x x' => aligned (F x) (F x') (R x x')) l l' ->
  aligned (format_outer_axis [] indent axes_left (map F l))
          (format_outer_axis [] indent axes_left (map F l')) (Forall2 R l l').
Proof.
  intros H. destruct H as [|x x' l l' Hx Hl].
  - split; auto.
  - cbn [map]. rewrite !format_outer_axis_chain.
    eapply aligned_impl;
      [|exact (aligned_app _ _ _ _ _ _ (aligned_refl (lit "["))
                 (aligned_app _ _ _ _ _ _
                    (aligned_app _ _ _ _ _ _ Hx
                       (aligned_chain_rel F R indent _ l l' Hl))
                    (aligned_refl (lit "]"))))].
    intros (_ & (H1 & H2) & _). constructor; assumption.
Qed.

(** One axis with its summary mark: the items visited align when the
    edge items do, and equal texts relate the edge items. *)
Lemma aligned_axis {A} (F : A -> str) (R : A -> A -> Prop) indent axes_left
    (l l' : list A) :
  List.length l = List.length l' ->
  Forall2 (fun x x' => aligned (F x) (F x') (R x x')) (edges l) (edges l') ->
  aligned
    (format_outer_axis [] indent axes_left (map (render F) (shown true l)))
    (format_outer_axis [] indent axes_left (map (render F) (shown true l')))
    (Forall2 R (edges l) (edges l')).
Proof.
  intros Hl H. rewrite !shown_mark, <- Hl.
  eapply aligned_impl.
  2:{ apply (aligned_outer_rel (render F) (optrel R)).
      eapply Forall2_impl; [|exact (Forall2_mark _ (List.length l) _ _ H)].
      intros [x|] [y|] Hxy; cbn in *; try contradiction; [exact Hxy|].
      split; auto. }
  apply Forall2_mark_inv.
  apply Forall2_length in H. exact H.
Qed.

(** ** The last axis with its summary mark *)

Lemma Forall_mark {A} (Q : A -> Prop) n (e : list A) :
  Forall Q e ->
  Forall (fun o => match o with Some x => Q x | None => True end) (mark n e).
Proof.
  intros H. unfold mark. destruct (2 * edgeitems <? n).
  - apply Forall_app. split; [apply Forall_map|].
    + apply (Forall_firstn_skipn Q edgeitems e H).
    + constructor; [exact I|]. apply Forall_map.
      apply (Forall_firstn_skipn Q edgeitems e H).
  - apply Forall_map. exact H.
Qed.

Lemma length_edges_eq {A B} (l : list A) (l' : list B) :
  List.length l = List.length l' ->
  List.length (edges l) = List.length (edges l').
Proof.
  intros H. unfold edges. rewrite <- H.
  destruct (2 * edgeitems <? List.length l); [|exact H].
  rewrite !length_app, !length_firstn, !length_skipn. lia.
Qed.

Lemma Forall2_eq_eq {A} (l l' : list A) : Forall2 eq l l' -> l = l'.
Proof. induction 1; congruence. Qed.

Lemma solid_rendered (ok : Z -> Prop) (f : Z -> str) m :
  (forall v, ok v -> solid (f v)) ->
  Forall (fun o => match o with Some x => ok x | None => True end) m ->
  Forall solid (map (render f) m).
Proof.
  intros Hf H. apply Forall_map. eapply Forall_impl; [|exact H].
  intros [v|] Hv; cbn [render]; [apply Hf, Hv | apply solid_summary].
Qed.

Lemma aligned_row_summary (ok : Z -> Prop) (f : Z -> str) (w : nat)
    indent width r r' :
  (forall v, ok v -> List.length (f v) = w /\ solid (f v)) ->
  (forall u v, ok u -> ok v -> f u = f v -> u = v) ->
  Forall ok (edges r) -> Forall ok (edges r') ->
  List.length r = List.length r' ->
  aligned
    (format_last_axis [] indent width (map (render f) (shown true r)))
    (format_last_axis [] indent width (map (render f) (shown true r')))
    (edges r = edges r').
Proof.
  intros Hf Hinj Hr Hr' Hlen. rewrite !shown_mark, <- Hlen.
  set (n := List.length r).
  pose proof (length_edges_eq r r' Hlen) as Hle.
  rewrite !format_last_axis_lay.
  2:{ apply (solid_rendered ok); [intros v Hv; apply (Hf v Hv) | apply Forall_mark, Hr']. }
  2:{ apply (solid_rendered ok); [intros v Hv; apply (Hf v Hv) | apply Forall_mark, Hr]. }
  pose proof (Forall2_mark _ n _ _ (Forall2_pair _ _ _ _ Hle Hr Hr')) as H2.
  assert (Forall2 (fun x x' => List.length x = List.length x')
            (map (render f) (mark n (edges r)))
            (map (render f) (mark n (edges r')))) as Hw.
  { clear -H2 Hf. induction H2 as [|o o' m m' Ho Hm IH]; cbn [map]; constructor;
      [|exact IH].
    destruct o as [u|], o' as [v|]; cbn in *; try contradiction; [|reflexivity].
    destruct Ho as [Hu Hv].
    destruct (Hf u Hu) as [-> _]. destruct (Hf v Hv) as [-> _]. reflexivity. }
  eapply aligned_impl;
    [|exact (aligned_app _ _ _ _ _ _ (aligned_refl (lit "["))
               (aligned_app _ _ _ _ _ _
                  (aligned_lay (width - 1) indent _ _ Hw (List.length indent))
                  (aligned_refl (lit "]"))))].
  intros (_ & Hm & _).
  apply Forall2_eq_eq, (Forall2_mark_inv eq n); [exact Hle|].
  clear -H2 Hm Hinj. induction H2 as [|o o' m m' Ho Hmm IH]; [constructor|].
  cbn [map] in Hm. injection Hm as Hhd Htl.
  constructor; [|apply IH, Htl].
  destruct o as [u|], o' as [v|]; cbn in *; try contradiction; [|exact I].
  destruct Ho as [Hu Hv]. apply Hinj; assumption.
Qed.

(** ** The whole array with its summary marks *)

Lemma leading_trailing_map a :
  leading_trailing a = map (fun plane => map edges (edges plane)) (edges a).
Proof.
  unfold leading_trailing. rewrite edges_map. apply map_ext.
  intros plane. apply edges_map.
Qed.

Lemma aligned_array_summary (ok : Z -> Prop) (f : Z -> str) (w : nat)
    line_width prefix h wd c a b :
  (forall v, ok v -> List.length (f v) = w /\ solid (f v)) ->
  (forall u v, ok u -> ok v -> f u = f v -> u = v) ->
  has_shape h wd c a -> has_shape h wd c b ->
  Forall (Forall (Forall ok)) (leading_trailing a) ->
  Forall (Forall (Forall ok)) (leading_trailing b) ->
  aligned (formatArray a f line_width prefix [] true)
          (formatArray b f line_width prefix [] true)
          (leading_trailing a = leading_trailing b).
Proof.
  intros Hf Hinj [Ha Hsa] [Hb Hsb] Hoa Hob.
  rewrite !leading_trailing_map in *. rewrite Forall_map in Hoa, Hob.
  unfold formatArray. cbv zeta.
  eapply aligned_impl; [apply Forall2_eq_map|].
  apply aligned_axis; [congruence|].
  pose proof (Forall2_pair _ _ (edges a) (edges b)
                (length_edges_eq a b (eq_trans Ha (eq_sym Hb)))
                (Forall_and (Forall_edges _ _ Hsa) Hoa)
                (Forall_and (Forall_edges _ _ Hsb) Hob)) as H2.
  eapply Forall2_impl; [|exact H2].
  intros p p' [[[Hp Hcp] Hop] [[Hp' Hcp'] Hop']].
  rewrite Forall_map in Hop, Hop'.
  eapply aligned_impl; [apply Forall2_eq_map|].
  apply aligned_axis; [congruence|].
  pose proof (Forall2_pair _ _ (edges p) (edges p')
                (length_edges_eq p p' (eq_trans Hp (eq_sym Hp')))
                (Forall_and (Forall_edges _ _ Hcp) Hop)
                (Forall_and (Forall_edges _ _ Hcp') Hop')) as H3.
  eapply Forall2_impl; [|exact H3].
  intros r r' [[Hr Hor] [Hr' Hor']].
  apply (aligned_row_summary ok f w); auto. congruence.
Qed.

(** ** The width of the words, with the summary mark in the row *)

Lemma text_first_row_shown summary f line_width r1 plane1 a1 :
  Forall solid (map (render f) (shown summary r1)) ->
  exists rest,
    formatArray ((r1 :: plane1) :: a1) f line_width (lit " ") [] summary
    = (lit "[[[" ++ lay (line_width - 2 - 1) (lit "   ") 3
                     (map (render f) (shown summary r1)))
      ++ "]"%char :: rest.
Proof.
  intros Hs. unfold formatArray. cbv zeta.
  destruct (shown_cons summary (r1 :: plane1) a1) as (t0 & ->).
  cbn [map render].
  destruct (shown_cons summary r1 plane1) as (t1 & ->).
  cbn [map render].
  rewrite !format_outer_axis_chain.
  rewrite (format_last_axis_lay _ _ _ Hs).
  change ((lit " " ++ lit " ") ++ lit " ") with (lit "   ").
  change (List.length (lit "   ")) with 3.
  eexists. cbn [lit list_ascii_of_string app].
  repeat rewrite <- app_assoc. cbn [app]. reflexivity.
Qed.

Lemma words_total (f g : Z -> str) (w w' : nat) m m' :
  Forall2 (optrel (fun v v' => List.length (f v) = w /\ List.length (g v') = w'))
          m m' ->
  exists k d,
    List.length (concat (map (render f) m)) = k * w + d
    /\ List.length (concat (map (render g) m')) = k * w' + d
    /\ (forall x t, m = Some x :: t -> 1 <= k).
Proof.
  induction 1 as [|o o' m m' Ho Hm (k & d & H1 & H2 & _)].
  - exists 0, 0. repeat split; intros; discriminate.
  - destruct o as [u|], o' as [v|]; cbn in Ho; try contradiction.
    + destruct Ho as [Hu Hv]. exists (S k), d.
      cbn [map concat render]. rewrite !length_app, H1, H2, Hu, Hv.
      repeat split; intros; lia.
    + exists k, (List.length summary_insert + d).
      cbn [map concat render]. rewrite !length_app, H1, H2.
      repeat split; try lia. intros; discriminate.
Qed.

Lemma plain_rendered (ok : Z -> Prop) (f : Z -> str) m :
  (forall v, ok v -> Forall plain (f v)) ->
  Forall (fun o => match o with Some x => ok x | None => True end) m ->
  Forall (Forall plain) (map (render f) m).
Proof.
  intros Hf H. apply Forall_map. eapply Forall_impl; [|exact H].
  intros [v|] Hv; cbn [render]; [apply Hf, Hv|].
  repeat constructor; discriminate.
Qed.

Lemma width_of_summary_text (oka okb : Z -> Prop) (f g : Z -> str) (w w' : nat)
    line_width r1 plane1 a1 r1' plane1' b1 :
  (forall v, oka v -> List.length (f v) = w /\ solid (f v) /\ Forall plain (f v)) ->
  (forall v, okb v -> List.length (g v) = w' /\ solid (g v) /\ Forall plain (g v)) ->
  Forall oka (edges r1) -> Forall okb (edges r1') ->
  List.length r1 = List.length r1' -> r1 <> [] ->
  formatArray ((r1 :: plane1) :: a1) f line_width (lit " ") [] true
  = formatArray ((r1' :: plane1') :: b1) g line_width (lit " ") [] true ->
  w = w'.
Proof.
  intros Hf Hg Hr Hr' Hlen Hne Heq.
  pose proof (Forall_mark oka (List.length r1) _ Hr) as Ma.
  pose proof (Forall_mark okb (List.length r1') _ Hr') as Mb.
  rewrite <- !shown_mark in Ma, Mb.
  assert (Forall solid (map (render f) (shown true r1))) as Hsf
    by (apply (solid_rendered oka); [intros v Hv; apply (Hf v Hv) | exact Ma]).
  assert (Forall solid (map (render g) (shown true r1'))) as Hsg
    by (apply (solid_rendered okb); [intros v Hv; apply (Hg v Hv) | exact Mb]).
  assert (Forall (Forall plain) (map (render f) (shown true r1))) as Hpf
    by (apply (plain_rendered oka); [intros v Hv; apply (Hf v Hv) | exact Ma]).
  assert (Forall (Forall plain) (map (render g) (shown true r1'))) as Hpg
    by (apply (plain_rendered okb); [intros v Hv; apply (Hg v Hv) | exact Mb]).
  destruct (text_first_row_shown true f line_width r1 plane1 a1 Hsf) as (ra & Ha).
  destruct (text_first_row_shown true g line_width r1' plane1' b1 Hsg) as (rb & Hb).
  rewrite Ha, Hb in Heq. apply (f_equal before_bracket) in Heq.
  assert (Forall (fun c => c <> "]"%char) (lit "   ")) as Hind
    by (repeat constructor; discriminate).
  assert (Forall (fun c => c <> newline) (lit "   ")) as Hind'
    by (repeat constructor; discriminate).
  rewrite !before_bracket_app in Heq.
  2:{ apply Forall_app. split; [repeat constructor; discriminate|].
      apply lay_no_bracket; assumption. }
  2:{ apply Forall_app. split; [repeat constructor; discriminate|].
      apply lay_no_bracket; assumption. }
  apply app_inv_head in Heq.
  pose proof (lay_count (line_width - 2 - 1) (lit "   ") _ Hind' Hpf 3) as Ca.
  pose proof (lay_count (line_width - 2 - 1) (lit "   ") _ Hind' Hpg 3) as Cb.
  rewrite Heq in Ca. rewrite Ca in Cb.
  assert (Forall2 (optrel (fun v v' => List.length (f v) = w /\ List.length (g v') = w'))
            (shown true r1) (shown true r1')) as H2.
  { rewrite !shown_mark, <- Hlen.
    eapply Forall2_impl;
      [|exact (Forall2_mark _ (List.length r1) _ _
                 (Forall2_pair _ _ _ _ (length_edges_eq r1 r1' Hlen) Hr Hr'))].
    intros [u|] [v|] H; cbn in *; try contradiction; [|exact I].
    destruct H as [Hu Hv]. split; [apply (Hf u Hu) | apply (Hg v Hv)]. }
  destruct (words_total f g w w' _ _ H2) as (k & d & K1 & K2 & Kpos).
  rewrite K1, K2 in Cb.
  destruct r1 as [|v r1]; [congruence|].
  destruct (shown_cons true v r1) as (t & Ht).
  specialize (Kpos v t Ht). nia.
Qed.

(** ** Equal summarised texts *)

Lemma uint8_leading_trailing a : uint8 a -> uint8 (leading_trailing a).
Proof.
  unfold uint8, leading_trailing. intros H.
  apply Forall_edges, Forall_map. eapply Forall_impl; [|exact H].
  intros p Hp. apply Forall_edges, Forall_map.
  eapply Forall_impl; [|exact Hp]. intros r Hr. apply Forall_edges, Hr.
Qed.

Lemma edges_cons {A} (x : A) l : exists t, edges (x :: l) = x :: t.
Proof.
  unfold edges. destruct (2 * edgeitems <? List.length (x :: l));
    cbn [edgeitems firstn app]; eauto.
Qed.

Lemma first_row_fits (ok : Z -> Prop) r1 plane1 a1 :
  Forall (Forall (Forall ok)) (leading_trailing ((r1 :: plane1) :: a1)) ->
  Forall ok (edges r1).
Proof.
  rewrite leading_trailing_map.
  destruct (edges_cons (r1 :: plane1) a1) as (t0 & ->).
  destruct (edges_cons r1 plane1) as (t1 & E1).
  cbn [map]. rewrite E1. cbn [map]. intros H.
  apply Forall_inv in H. apply Forall_inv in H. exact H.
Qed.

(** Arrays of one shape and more than 1000 bytes with one text have the
    same leading and trailing parts. *)
Lemma summary_text_inj h wd c a b :
  has_shape h wd c a -> has_shape h wd c b ->
  uint8 a -> uint8 b ->
  threshold < size a ->
  img_to_string a = img_to_string b ->
  leading_trailing a = leading_trailing b.
Proof.
  intros Ha Hb Hua Hub Hsz Heq.
  pose proof (size_shape _ _ _ _ Ha) as Sa.
  pose proof (size_shape _ _ _ _ Hb) as Sb.
  unfold img_to_string, array2string in Heq.
  assert ((size a =? 0) = false) as Za by (apply Nat.eqb_neq; unfold threshold in *; lia).
  assert ((size b =? 0) = false) as Zb by (apply Nat.eqb_neq; unfold threshold in *; lia).
  assert ((threshold <? size a) = true) as Ta by (apply Nat.ltb_lt; lia).
  assert ((threshold <? size b) = true) as Tb by (apply Nat.ltb_lt; lia).
  rewrite Za, Zb in Heq. cbv zeta in Heq. rewrite Ta, Tb in Heq.
  unfold IntegerFormat in Heq.
  pose proof (fits_array _ (uint8_leading_trailing a Hua)) as Fa.
  pose proof (fits_array _ (uint8_leading_trailing b Hub)) as Fb.
  set (wa := format_width (samples (leading_trailing a))) in *.
  set (wb := format_width (samples (leading_trailing b))) in *.
  assert (wa = wb) as Hw.
  { destruct Ha as [Hh Hsa], Hb as [Hh' Hsb].
    assert (0 < h /\ 0 < wd /\ 0 < c) as (Hh0 & Hw0 & Hc0).
    { unfold threshold in Hsz. destruct h, wd, c; simpl in Sa;
        rewrite ?Nat.mul_0_r in Sa; lia. }
    destruct a as [|p a1]; [simpl in Hh; lia|].
    destruct b as [|p' b1]; [simpl in Hh'; lia|].
    apply Forall_inv in Hsa, Hsb.
    destruct Hsa as [Hp Hcp], Hsb as [Hp' Hcp'].
    destruct p as [|r1 p1]; [simpl in Hp; lia|].
    destruct p' as [|r1' p1']; [simpl in Hp'; lia|].
    apply Forall_inv in Hcp, Hcp'.
    apply (width_of_summary_text (fits wa) (fits wb) _ _ wa wb linewidth
             r1 p1 a1 r1' p1' b1 (fits_word wa) (fits_word wb)
             (first_row_fits _ _ _ _ Fa) (first_row_fits _ _ _ _ Fb));
      [congruence | | exact Heq].
    intros ->. simpl in Hcp. lia. }
  rewrite <- Hw in Heq, Fb.
  destruct (aligned_array_summary (fits wa)
              (fun x => Py.rjust wa (Py.str_of_int x)) wa linewidth (lit " ")
              h wd c a b (fun v Hv => conj (proj1 (fits_word wa v Hv))
                                       (proj1 (proj2 (fits_word wa v Hv))))
              (fits_inj wa) Ha Hb Fa Fb) as [_ H].
  exact (H Heq).
Qed.

(** X15: for arrays of bytes of one shape with more than 1000 samples the
    text keeps exactly the leading and trailing parts: two such arrays
    have one text if and only if they agree there, and if they differ
    there their digests differ unless Whirlpool collides on the texts. *)
Theorem summarised_text_keeps_the_edges :
  forall h wd c a b,
    has_shape h wd c a -> has_shape h wd c b ->
    uint8 a -> uint8 b ->
    threshold < size a ->
    (img_to_string a = img_to_string b
     <-> leading_trailing a = leading_trailing b)
    /\ (leading_trailing a <> leading_trailing b ->
        digest_of a = digest_of b ->
        collision (Py.encode_utf8 (img_to_string a))
                  (Py.encode_utf8 (img_to_string b))).
Proof.
  intros h wd c a b Ha Hb Hua Hub Hsz.
  assert (img_to_string a = img_to_string b
          <-> leading_trailing a = leading_trailing b) as Hiff.
  { split.
    - apply (summary_text_inj h wd c); assumption.
    - apply (text_of_edges h wd c); assumption. }
  split; [exact Hiff|].
  intros Hne Hd. apply hash_eq_collision; [|exact Hd].
  intros Ht. apply Hne, Hiff, Ht.
Qed.

Lemma summarised_text_keeps_the_edges_witness :
  (img_to_string region_a = img_to_string (perturb region_a 0 19 2 6)
   <-> leading_trailing region_a = leading_trailing (perturb region_a 0 19 2 6))
  /\ (leading_trailing region_a <> leading_trailing (perturb region_a 0 19 2 6) ->
      digest_of region_a = digest_of (perturb region_a 0 19 2 6) ->
      collision (Py.encode_utf8 (img_to_string region_a))
                (Py.encode_utf8 (img_to_string (perturb region_a 0 19 2 6)))).
Proof.
  apply (summarised_text_keeps_the_edges 20 20 3).
  - apply has_shapeb_spec. vm_compute. reflexivity.
  - apply has_shapeb_spec. vm_compute. reflexivity.
  - apply uint8b_spec. vm_compute. reflexivity.
  - apply uint8b_spec. vm_compute. reflexivity.
  - vm_compute. lia.
Defined.

End SummaryKeeps.

